(** * mo-vector client: filter compilation, bounded vector search and
      rank fusion

    A shallow embedding of [mo_vector/client/utils.py] and of the query
    composition code of [mo_vector/client/vector_client.py].

    Modelling conventions.
    - Python [int] values are [Z].
    - A Python [float] is a binary64 number.  Module [F64] computes the
      scores of the rank fusion functions bit for bit, on [spec_float],
      the Standard Library's specification of IEEE 754 arithmetic, with
      [math.atan], a function of the platform's C library, as a
      parameter.  Module [Utils] reads the same functions over the real
      numbers; it serves the statements that hold whatever rounding does
      to a score: which items are returned, how many of them, and which
      exception is raised.  Distances are computed by the database and
      are real numbers here.
    - A [str] is the sequence of its UTF-8 bytes.
    - A Python [dict] is an association list in insertion order.
    - A Python call that may raise returns an [outcome]: [Return v] or
      [Raise e].
    - The database is an external collaborator.  SQLAlchemy expressions
      are kept as syntax trees ([clause]); what the database makes of an
      atomic JSON comparison is a parameter of the development. *)

From Stdlib Require Import Reals Lra Lia ZArith List String Ascii Bool.
From Stdlib Require Import Permutation Sorted DecimalString SpecFloat.
From Stdlib Require DecimalPos DecimalZ.
Import ListNotations.

Local Open Scope R_scope.

Set Warnings "-register-all".

(** ** Python outcomes *)

Module Py.

(** The exceptions this code base raises or lets through. *)
Inductive exn : Type :=
| ValueError (msg : string)
| TypeError (msg : string)
| AttributeError (msg : string)
| KeyError (key : string)
| IndexError
| ZeroDivisionError
| EmbeddingColumnMismatchError (existing_col expected_col : string)
| DatabaseError (msg : string)
| ArgumentError (msg : string)
| KeyboardInterrupt.

(** [isinstance(e, Exception)]: everything but the [BaseException]-only
    classes. *)
Definition is_Exception (e : exn) : bool :=
  match e with
  | KeyboardInterrupt => false
  | _ => true
  end.

Inductive outcome (A : Type) : Type :=
| Return (a : A)
| Raise (e : exn).

Arguments Return {A} a.
Arguments Raise {A} e.

Definition bind {A B : Type} (m : outcome A) (k : A -> outcome B) : outcome B :=
  match m with
  | Return a => k a
  | Raise e => Raise e
  end.

Definition returns {A : Type} (m : outcome A) : Prop :=
  exists a, m = Return a.

Definition raises {A : Type} (m : outcome A) : Prop :=
  exists e, m = Raise e.

(** [str.lower] on the ASCII range. *)
Definition ascii_lower (c : ascii) : ascii :=
  let n := nat_of_ascii c in
  if (65 <=? n)%nat && (n <=? 90)%nat then ascii_of_nat (n + 32) else c.

Fixpoint lower (s : string) : string :=
  match s with
  | EmptyString => EmptyString
  | String c s' => String (ascii_lower c) (lower s')
  end.

(** [x in xs] for a list of strings. *)
Definition str_in (x : string) (xs : list string) : bool :=
  existsb (String.eqb x) xs.

(** [enumerate(l, start)]. *)
Fixpoint enumerate {A : Type} (l : list A) (start : Z) : list (Z * A) :=
  match l with
  | [] => []
  | x :: l' => (start, x) :: enumerate l' (start + 1)
  end.

(** [l[:k]]: a negative [k] counts from the end. *)
Definition slice_to {A : Type} (l : list A) (k : Z) : list A :=
  if (k <? 0)%Z then firstn (Z.to_nat (Z.of_nat (List.length l) + k)) l
  else firstn (Z.to_nat k) l.

(** [l[i]] for a non-negative index. *)
Definition getitem {A : Type} (l : list A) (i : nat) : outcome A :=
  match nth_error l i with
  | Some a => Return a
  | None => Raise IndexError
  end.

(** [list(set(l))]: the distinct elements of [l].  Python leaves the
    iteration order of a set unspecified; the model fixes one order and
    the development only states order-insensitive facts about it. *)
Definition list_of_set (l : list string) : list string :=
  nodup string_dec l.

End Py.

Import Py.

Notation "x <- m ;; k" := (bind m (fun x => k))
  (at level 61, m at next level, right associativity).

(** ** [mo_vector/client/utils.py], scores read as real numbers *)

Module Utils.

(** A score table: the [dict] from item to accumulated score. *)
Definition dict : Type := list (string * R).

(** [text in d] *)
Fixpoint contains (d : dict) (text : string) : bool :=
  match d with
  | [] => false
  | (t, _) :: d' => String.eqb t text || contains d' text
  end.

(** [d[text] += s], for a key that is present. *)
Fixpoint iadd (d : dict) (text : string) (s : R) : dict :=
  match d with
  | [] => []
  | (t, v) :: d' =>
      if String.eqb t text then (t, v + s) :: d' else (t, v) :: iadd d' text s
  end.

(** The loop body shared by both fusion functions:
    [if text in d: d[text] += s else: d[text] = s]. *)
Definition accumulate (d : dict) (text : string) (s : R) : dict :=
  if contains d text then iadd d text s else d ++ [(text, s)].

(** [sorted(d.items(), key=lambda x: x[1], reverse=True)]: a stable
    sort, so entries with equal score keep their order in [d]. *)
Fixpoint insert_desc (x : string * R) (l : list (string * R)) : list (string * R) :=
  match l with
  | [] => [x]
  | y :: l' =>
      if Rlt_dec (snd x) (snd y) then y :: insert_desc x l' else x :: y :: l'
  end.

Fixpoint sorted_desc (l : list (string * R)) : list (string * R) :=
  match l with
  | [] => []
  | x :: l' => insert_desc x (sorted_desc l')
  end.

(** [[[score, text] for text, score in sorted_results[:k]]] *)
Definition top_k (sorted_results : list (string * R)) (k : Z) : list (R * string) :=
  map (fun x => (snd x, fst x)) (slice_to sorted_results k).

Definition arctan_normalize (score : R) : R :=
  (1 / PI) * atan score + 0.5.

Definition convert_metric_score (original_score : R) (metric_type : string) : R :=
  let metric_type := "l2"%string in
  let score_for_arctan :=
    if str_in (lower metric_type) ["l2"; "euclidean"]%string then - original_score
    else if str_in (lower metric_type) ["ip"; "inner_product"]%string then original_score
    else if str_in (lower metric_type) ["cosine"]%string then original_score
    else original_score in
  arctan_normalize score_for_arctan.

(** One [for score, text in enumerate(..., start=1)] loop of
    [rrf_rerank]. *)
Fixpoint rrf_loop (rank_value : Z) (ranked : list (Z * string)) (rrf_scores : dict)
  : outcome dict :=
  match ranked with
  | [] => Return rrf_scores
  | (score, text) :: rest =>
      if (rank_value + score =? 0)%Z then Raise ZeroDivisionError
      else
        let rrf_score := 1 / IZR (rank_value + score) in
        rrf_loop rank_value rest (accumulate rrf_scores text rrf_score)
  end.

Definition rrf_rerank (vector_query_result full_text_query_result : list string)
           (k : Z) (rank_value : Z) : outcome (list (R * string)) :=
  rrf_scores <- rrf_loop rank_value (enumerate vector_query_result 1) [] ;;
  rrf_scores <- rrf_loop rank_value (enumerate full_text_query_result 1) rrf_scores ;;
  let sorted_results := sorted_desc rrf_scores in
  Return (top_k sorted_results k).

(** [[(score, text, tag) for score, text in enumerate(l, start=1)]] *)
Definition tagged (l : list string) (model_type : string) : list (Z * string * string) :=
  map (fun st => (fst st, snd st, model_type)) (enumerate l 1).

Fixpoint weighted_loop (weights : list R) (all_results : list (Z * string * string))
         (doc_score_map : dict) : outcome dict :=
  match all_results with
  | [] => Return doc_score_map
  | (score, text, model_type) :: rest =>
      weight <- (if String.eqb model_type "vector" then getitem weights 0
                 else getitem weights 1) ;;
      let norm_score := convert_metric_score (IZR score) model_type in
      let weighted_score := norm_score * weight in
      weighted_loop weights rest (accumulate doc_score_map text weighted_score)
  end.

Definition weighted_rank (vector_query_result full_text_query_result : list string)
           (k : Z) (weights : list R) : outcome (list (R * string)) :=
  let all_results :=
    tagged vector_query_result "vector" ++ tagged full_text_query_result "full_text" in
  doc_score_map <- weighted_loop weights all_results [] ;;
  let sorted_results := sorted_desc doc_score_map in
  Return (top_k sorted_results k).

(** The [rerank_option] dictionary; [None] is a missing key. *)
Record rerank_option : Type := {
  rerank_type : option string;
  rank_value : option Z;
  weighted_score : option (list R);
  rerank_score_threshold : option R
}.

(** What [rerank_data] hands back: scored pairs from the two fusion
    functions, bare items from the fallback. *)
Inductive rerank_result : Type :=
| Scored (pairs : list (R * string))
| Items (items : list string).

Definition result_items (r : rerank_result) : list string :=
  match r with
  | Scored pairs => map snd pairs
  | Items items => items
  end.

Definition result_length (r : rerank_result) : nat :=
  match r with
  | Scored pairs => List.length pairs
  | Items items => List.length items
  end.

Definition get {A : Type} (o : option A) (default : A) : A :=
  match o with
  | Some a => a
  | None => default
  end.

Definition rerank_data (vector_data full_text_data : list string) (k : Z)
           (option : rerank_option) : outcome rerank_result :=
  match rerank_type option with
  | None => Raise (KeyError "rerank_type")
  | Some rerank_type =>
      let rank_value := get (rank_value option) 0%Z in
      let weighted_score := get (weighted_score option) [] in
      if String.eqb rerank_type "RRF" then
        r <- rrf_rerank vector_data full_text_data k rank_value ;; Return (Scored r)
      else if String.eqb rerank_type "WeightedRank" then
        r <- weighted_rank vector_data full_text_data k weighted_score ;; Return (Scored r)
      else Return (Items (list_of_set (vector_data ++ full_text_data)))
  end.

(** *** Vocabulary for statements about rank fusion *)

(** The items of [l] in order of first occurrence, after those already
    [seen]. *)
Fixpoint first_seen_from (seen l : list string) : list string :=
  match l with
  | [] => seen
  | x :: l' => first_seen_from (if str_in x seen then seen else seen ++ [x]) l'
  end.

Definition first_seen (l : list string) : list string := first_seen_from [] l.

(** The score table after a loop that never raises. *)
Fixpoint accumulate_all (contribution : Z -> R) (ranked : list (Z * string)) (d : dict) : dict :=
  match ranked with
  | [] => d
  | (r, text) :: rest => accumulate_all contribution rest (accumulate d text (contribution r))
  end.

(** Entry [a] may stand before entry [b] in a descending ranking. *)
Definition descending (a b : string * R) : Prop := snd b <= snd a.

End Utils.

Import Utils.

(** ** [mo_vector/client/vector_client.py] *)

Module Client.

(** Python values as they occur in a filter or in document metadata. *)
Inductive value : Type :=
| VNone
| VBool (b : bool)
| VInt (n : Z)
| VFloat (x : R)
| VStr (s : string)
| VList (items : list value)
| VDict (items : list (string * value)).

(** A mapping with string keys, in insertion order. *)
Definition mapping : Type := list (string * value).

Definition type_name (v : value) : string :=
  match v with
  | VNone => "NoneType"
  | VBool _ => "bool"
  | VInt _ => "int"
  | VFloat _ => "float"
  | VStr _ => "str"
  | VList _ => "list"
  | VDict _ => "dict"
  end.

(** Comparison operators of a metadata predicate. *)
Inductive cmp : Type := OpIn | OpNotIn | OpGt | OpGe | OpLt | OpLe | OpNe | OpEq.

(** The SQLAlchemy expression trees the client builds:
    [true()], [and_(...)], [or_(...)], a comparison of
    [json_extract(meta, path)] with a value, and [id.in_(ids)]. *)
Inductive clause : Type :=
| CTrue
| CAnd (clauses : list clause)
| COr (clauses : list clause)
| CJson (op : cmp) (path : string) (v : value)
| CIdIn (ids : list string).

(** The operator keys that may not appear without a field. *)
Definition bare_operators : list string :=
  ["$in"; "$nin"; "$gt"; "$gte"; "$lt"; "$lte"; "$eq"; "$ne"]%string.

(** [f"$.{key}"] *)
Definition json_path (key : string) : string := ("$." ++ key)%string.

(** [d[k]] on the dict built by a comprehension over [items]: of several
    items with the same key the last one wins. *)
Fixpoint subscript (items : mapping) (k : string) : outcome value :=
  match items with
  | [] => Raise (KeyError k)
  | (k', v) :: rest =>
      match subscript rest k with
      | Return v' => Return v'
      | Raise _ => if String.eqb k' k then Return v else Raise (KeyError k)
      end
  end.

(** The operands SQLAlchemy builds a comparison with.  [in_] takes an
    iterable that is not a string; the four order comparisons take
    anything but [None], [True] and [False]; equality and inequality
    take every value. *)
Definition operand_ok (op : cmp) (v : value) : bool :=
  match op with
  | OpIn | OpNotIn =>
      match v with
      | VList _ | VDict _ => true
      | _ => false
      end
  | OpGt | OpGe | OpLt | OpLe =>
      match v with
      | VNone | VBool _ => false
      | _ => true
      end
  | OpNe | OpEq => true
  end.

(** The [ArgumentError] SQLAlchemy raises for any other operand.  For
    [in_] the library's message goes on with the [repr] of the operand,
    which is left out here. *)
Definition operand_error (op : cmp) : exn :=
  match op with
  | OpIn | OpNotIn =>
      ArgumentError
        "IN expression list, SELECT construct, or bound parameter object expected"
  | _ =>
      ArgumentError
        ("Only '=', '!=', 'is_()', 'is_not()', 'is_distinct_from()', "
         ++ "'is_not_distinct_from()' operators can be used with None/True/False")
  end.

(** [json_key.in_(v)], [~json_key.in_(v)], [json_key > v] and so on. *)
Definition comparison (op : cmp) (json_key : string) (v : value) : outcome (option clause) :=
  if operand_ok op v then Return (Some (CJson op json_key v))
  else Raise (operand_error op).

(** Returns [None] (after logging a warning) when [value] holds none of
    the eight operators. *)
Definition _create_filter_clause (key : string) (value : mapping)
  : outcome (option clause) :=
  let json_key := json_path key in
  let value_case_insensitive := map (fun kv => (lower (fst kv), snd kv)) value in
  let keys := map lower (map fst value) in
  if str_in "$in" keys then
    v <- subscript value_case_insensitive "$in" ;; comparison OpIn json_key v
  else if str_in "$nin" keys then
    v <- subscript value_case_insensitive "$nin" ;; comparison OpNotIn json_key v
  else if str_in "$gt" keys then
    v <- subscript value_case_insensitive "$gt" ;; comparison OpGt json_key v
  else if str_in "$gte" keys then
    v <- subscript value_case_insensitive "$gte" ;; comparison OpGe json_key v
  else if str_in "$lt" keys then
    v <- subscript value_case_insensitive "$lt" ;; comparison OpLt json_key v
  else if str_in "$lte" keys then
    v <- subscript value_case_insensitive "$lte" ;; comparison OpLe json_key v
  else if str_in "$ne" keys then
    v <- subscript value_case_insensitive "$ne" ;; comparison OpNe json_key v
  else if str_in "$eq" keys then
    v <- subscript value_case_insensitive "$eq" ;; comparison OpEq json_key v
  else Return None.

Definition not_iterable (v : value) : exn :=
  TypeError ("'" ++ type_name v ++ "' object is not iterable").

Definition bare_operator_error (key : string) : exn :=
  ValueError ("Got unexpected filter expression: <class 'filter'>. "
              ++ "Operator " ++ key ++ " must be followed by a meta key. ").

Section Loop.

(** The recursive call [self._build_filter_clause(condition, table_model)]. *)
Variable build : value -> outcome clause.

(** [[build(c) for c in conds if isinstance(c, dict) and c is not None]] *)
Fixpoint conditions (conds : list value) : outcome (list clause) :=
  match conds with
  | [] => Return []
  | c :: rest =>
      match c with
      | VDict _ => x <- build c ;; xs <- conditions rest ;; Return (x :: xs)
      | _ => conditions rest
      end
  end.

(** One pass through the body of the [for key, value in
    filters.items()] loop: the clauses it appends to [filter_clauses],
    or the exception it raises.  Under [$and] and [$or] a list is
    iterated element by element; iterating a mapping or a string
    yields strings only, none of which passes the [isinstance] test;
    any other value is not iterable. *)
Definition item (key : string) (value : value) : outcome (list clause) :=
  if String.eqb (lower key) "$and" then
    match value with
    | VList conds =>
        and_clauses <- conditions conds ;; Return [CAnd and_clauses]
    | VDict _ | VStr _ => Return [CAnd []]
    | _ => Raise (not_iterable value)
    end
  else if String.eqb (lower key) "$or" then
    match value with
    | VList conds =>
        or_clauses <- conditions conds ;; Return [COr or_clauses]
    | VDict _ | VStr _ => Return [COr []]
    | _ => Raise (not_iterable value)
    end
  else if str_in (lower key) bare_operators then
    Raise (bare_operator_error key)
  else
    match value with
    | VDict nested =>
        filter_by_metadata <- _create_filter_clause key nested ;;
        match filter_by_metadata with
        | Some c => Return [c]
        | None => Return []
        end
    | _ => Return [CJson OpEq (json_path key) value]
    end.

(** The whole loop: the final contents of [filter_clauses], or the
    first exception. *)
Fixpoint loop (filters : mapping) : outcome (list clause) :=
  match filters with
  | [] => Return []
  | (key, value) :: rest =>
      this <- item key value ;;
      others <- loop rest ;;
      Return (this ++ others)
  end.

End Loop.

(** [_build_filter_clause] on a filter that is not [None]. *)
Fixpoint compile (filters : value) : outcome clause :=
  match filters with
  | VDict items =>
      let filter_by := CTrue in
      filter_clauses <- loop compile items ;;
      Return (CAnd (filter_by :: filter_clauses))
  | _ => Raise (AttributeError ("'" ++ type_name filters ++ "' object has no attribute 'items'"))
  end.

Definition filter_clauses (filters : mapping) : outcome (list clause) :=
  loop compile filters.

(** Vocabulary for statements about filters: an element of a combinator
    that is a mapping, a key that names a metadata field, and a nested
    mapping none of whose keys is an operator. *)
Definition is_mapping (v : value) : bool :=
  match v with
  | VDict _ => true
  | _ => false
  end.


Definition has_operator (nested : mapping) : bool :=
  existsb (fun k => str_in (lower k) bare_operators) (map fst nested).

Definition _build_filter_clause (filters : option mapping) : outcome clause :=
  match filters with
  | Some filters => compile (VDict filters)
  | None => Return CTrue
  end.

(** *** The table and the database's reading of a predicate *)

Record row : Type := {
  id : string;
  embedding : list R;
  document : string;
  meta : value
}.

Section Where.

(** How the database decides one JSON comparison on a row's metadata. *)
Variable json_holds : cmp -> string -> value -> value -> bool.

(** Whether a row satisfies a predicate in a WHERE position.  An
    [and_()] or [or_()] without arguments renders as a blank SQL
    string, that is, as no condition; this is its reading on its own and
    as an argument of [and_].  (As one of several arguments of [or_] the
    blank is left out of the rendered list instead; the statements below
    that evaluate an [or_] do so on arguments that are not blank.) *)
Fixpoint holds (c : clause) (r : row) : bool :=
  match c with
  | CTrue => true
  | CAnd cs => forallb (fun c' => holds c' r) cs
  | COr [] => true
  | COr cs => existsb (fun c' => holds c' r) cs
  | CJson op path v => json_holds op path v (meta r)
  | CIdIn ids => str_in (id r) ids
  end.

End Where.

(** A reference reading of JSON comparisons, for concrete tables:
    [json_extract] of a top-level key, integers compared by order and
    strings by equality, a missing key satisfying nothing. *)
Definition json_extract (m : value) (path : string) : option value :=
  match m with
  | VDict items =>
      match find (fun kv => String.eqb (json_path (fst kv)) path) items with
      | Some kv => Some (snd kv)
      | None => None
      end
  | _ => None
  end.

Definition scalar_eqb (a b : value) : bool :=
  match a, b with
  | VInt x, VInt y => (x =? y)%Z
  | VStr x, VStr y => String.eqb x y
  | VBool x, VBool y => Bool.eqb x y
  | _, _ => false
  end.

Definition scalar_ltb (a b : value) : bool :=
  match a, b with
  | VInt x, VInt y => (x <? y)%Z
  | _, _ => false
  end.

Definition reference_json_holds (op : cmp) (path : string) (v : value) (m : value) : bool :=
  match json_extract m path with
  | None => false
  | Some x =>
      match op with
      | OpEq => scalar_eqb x v
      | OpNe => negb (scalar_eqb x v)
      | OpGt => scalar_ltb v x
      | OpGe => scalar_ltb v x || scalar_eqb x v
      | OpLt => scalar_ltb x v
      | OpLe => scalar_ltb x v || scalar_eqb x v
      | OpIn => match v with VList vs => existsb (scalar_eqb x) vs | _ => false end
      | OpNotIn => match v with VList vs => negb (existsb (scalar_eqb x) vs) | _ => false end
      end
  end.

(** *** Vector search *)

(** The Euclidean distance the database computes for [l2_distance]. *)
Definition l2_distance (a b : list R) : R :=
  sqrt (fold_right Rplus 0 (map (fun p => (fst p - snd p) * (fst p - snd p)) (combine a b))).

Inductive DistanceStrategy : Type := L2.

Definition strategy_value (s : DistanceStrategy) : string :=
  match s with L2 => "l2" end.

(** The client object: the configuration [__init__] stores. *)
Record client : Type := {
  _table_name : string;
  _distance_strategy : option DistanceStrategy;
  _vector_dimension : option Z;
  _drop_existing_table : bool
}.

(** The [distance_strategy] property. *)
Definition distance_strategy (self : client) : list R -> list R -> R :=
  match _distance_strategy self with
  | Some L2 => l2_distance
  | None => l2_distance
  end.

(** One row of a search result. *)
Record hit : Type := {
  hit_id : string;
  hit_meta : value;
  hit_document : string;
  distance : R
}.

(** An argument of [Query.filter]: a predicate on the row, a comparison
    on the labelled distance column, or the Python constant [True]. *)
Inductive criterion : Type :=
| Where (c : clause)
| DistanceGe (bound : R)
| DistanceLe (bound : R)
| PyTrue.

(** Truth value of an [Optional[float]] in a conditional expression. *)
Definition truthy (x : option R) : bool :=
  match x with
  | None => false
  | Some v => if Req_dec_T v 0 then false else true
  end.

(** [order_by(asc("distance"))], stable on the table order. *)
Fixpoint insert_asc (h : hit) (l : list hit) : list hit :=
  match l with
  | [] => [h]
  | h' :: l' =>
      if Rlt_dec (distance h') (distance h) then h' :: insert_asc h l' else h :: h' :: l'
  end.

Fixpoint order_by_distance (l : list hit) : list hit :=
  match l with
  | [] => []
  | h :: l' => insert_asc h (order_by_distance l')
  end.

Section Queries.

Variable json_holds : cmp -> string -> value -> value -> bool.

Definition satisfies (h : row * R) (c : criterion) : bool :=
  match c with
  | Where p => holds json_holds p (fst h)
  | DistanceGe b => if Rle_dec b (snd h) then true else false
  | DistanceLe b => if Rle_dec (snd h) b then true else false
  | PyTrue => true
  end.

(** Successive [.filter(...)] calls are conjoined. *)
Definition select (table : list row) (distance_col : row -> R)
           (criteria : list criterion) : list hit :=
  map (fun h => {| hit_id := id (fst h); hit_meta := meta (fst h);
                   hit_document := document (fst h); distance := snd h |})
      (filter (fun h => forallb (satisfies h) criteria)
              (map (fun r => (r, distance_col r)) table)).

Definition _vector_search (self : client) (table : list row)
           (query_embedding : list R) (k : nat) (filter : option mapping)
           (dis_lower_bound dis_upper_bound : option R) : outcome (list hit) :=
  filter_by <- _build_filter_clause filter ;;
  let distance_col := fun r => distance_strategy self (embedding r) query_embedding in
  let lower :=
    match dis_lower_bound with
    | Some b => if truthy dis_lower_bound then DistanceGe b else PyTrue
    | None => PyTrue
    end in
  let upper :=
    match dis_upper_bound with
    | Some b => if truthy dis_upper_bound then DistanceLe b else PyTrue
    | None => PyTrue
    end in
  let results := select table distance_col [Where filter_by; lower; upper] in
  Return (firstn k (order_by_distance results)).

(** [query] repackages each row of [_vector_search] as a
    [QueryResult] with the same four fields. *)
Definition query (self : client) (table : list row)
           (query_vector : list R) (k : nat) (filter : option mapping)
           (dis_lower_bound dis_upper_bound : option R) : outcome (list hit) :=
  relevant_docs <- _vector_search self table query_vector k filter
                     dis_lower_bound dis_upper_bound ;;
  Return (map (fun doc => {| hit_id := hit_id doc; hit_meta := hit_meta doc;
                             hit_document := hit_document doc;
                             distance := distance doc |}) relevant_docs).


End Queries.

(** *** [execute] *)

(** A [str] is held as its UTF-8 bytes.  [str.isspace] is true of the
    ASCII characters 9 to 13 and 28 to 32, ... *)
Definition isspace (c : ascii) : bool :=
  let n := nat_of_ascii c in
  ((9 <=? n)%nat && (n <=? 13)%nat) || ((28 <=? n)%nat && (n <=? 32)%nat).

(** ... of U+0085 and U+00A0, which take two bytes, ... *)
Definition isspace2 (a b : ascii) : bool :=
  (nat_of_ascii a =? 194)%nat
  && ((nat_of_ascii b =? 133)%nat || (nat_of_ascii b =? 160)%nat).

(** ... and of U+1680, U+2000 to U+200A, U+2028, U+2029, U+202F, U+205F
    and U+3000, which take three. *)
Definition isspace3 (a b c : ascii) : bool :=
  let a := nat_of_ascii a in
  let b := nat_of_ascii b in
  let c := nat_of_ascii c in
  ((a =? 225)%nat && (b =? 154)%nat && (c =? 128)%nat)
  || ((a =? 226)%nat && (b =? 128)%nat
      && (((128 <=? c)%nat && (c <=? 138)%nat)
          || (c =? 168)%nat || (c =? 169)%nat || (c =? 175)%nat))
  || ((a =? 226)%nat && (b =? 129)%nat && (c =? 159)%nat)
  || ((a =? 227)%nat && (b =? 128)%nat && (c =? 128)%nat).

Fixpoint lstrip (s : string) : string :=
  match s with
  | EmptyString => EmptyString
  | String a s1 =>
      if isspace a then lstrip s1
      else
        match s1 with
        | String b s2 =>
            if isspace2 a b then lstrip s2
            else
              match s2 with
              | String c s3 => if isspace3 a b c then lstrip s3 else s
              | EmptyString => s
              end
        | EmptyString => s
        end
  end.

Fixpoint rstrip (s : string) : string :=
  match s with
  | EmptyString => EmptyString
  | String a s' =>
      match rstrip s' with
      | EmptyString => if isspace a then EmptyString else String a EmptyString
      | String b EmptyString =>
          if isspace2 a b then EmptyString else String a (String b EmptyString)
      | String b (String c EmptyString) =>
          if isspace3 a b c then EmptyString
          else String a (String b (String c EmptyString))
      | t => String a t
      end
  end.

Definition strip (s : string) : string := lstrip (rstrip s).

(** [str(e)] *)
Definition str_of_exn (e : exn) : string :=
  match e with
  | ValueError msg | TypeError msg | AttributeError msg | DatabaseError msg
  | ArgumentError msg => msg
  | KeyError key => "'" ++ key ++ "'"
  | IndexError => "list index out of range"
  | ZeroDivisionError => "division by zero"
  | EmbeddingColumnMismatchError existing_col expected_col =>
      "The existing embedding column (" ++ existing_col
      ++ ") does not match the expected dimension (" ++ expected_col ++ ")."
  | KeyboardInterrupt => ""
  end.

(** The result object of [session.execute]. *)
Record cursor : Type := {
  fetchall : outcome (list (list value));
  rowcount : outcome Z
}.

(** The database session as [execute] sees it: every step may raise.
    [enter] opens the session and begins the transaction, [leave] ends
    both [with] blocks on the normal path, and [unwind e] is the
    exception in flight once both have been left on account of [e]. *)
Record session : Type := {
  enter : outcome unit;
  execute_text : string -> option mapping -> outcome cursor;
  commit : outcome unit;
  leave : outcome unit;
  unwind : exn -> exn
}.

Definition with_session {A : Type} (db : session) (body : outcome A) : outcome A :=
  _ <- enter db ;;
  match body with
  | Return a => _ <- leave db ;; Return a
  | Raise e => Raise (unwind db e)
  end.

(** [try: body except Exception as e: handler(e)] *)
Definition try_except_Exception {A : Type} (body : outcome A)
           (handler : exn -> outcome A) : outcome A :=
  match body with
  | Return a => Return a
  | Raise e => if is_Exception e then handler e else Raise e
  end.

Inductive payload : Type :=
| Rows (rows : list (list value))
| Rowcount (n : Z).

(** The dictionary [{"success": ..., "result": ..., "error": ...}]. *)
Record envelope : Type := {
  success : bool;
  result : option payload;
  error : option string
}.

(** The body of the [try] statement of [execute]. *)
Definition execute_try (db : session) (sql : string) (params : option mapping)
  : outcome envelope :=
  with_session db
    (result <- execute_text db sql params ;;
     _ <- commit db ;;
     if prefix "select" (lower (strip sql)) then
       rows <- fetchall result ;;
       Return {| success := true; result := Some (Rows rows); error := None |}
     else
       n <- rowcount result ;;
       Return {| success := true; result := Some (Rowcount n); error := None |}).

Definition execute (db : session) (sql : string) (params : option mapping)
  : outcome envelope :=
  try_except_Exception (execute_try db sql params)
    (fun e =>
       Return {| success := false; result := None; error := Some (str_of_exn e) |}).

(** A step that, when it raises, raises an instance of [Exception]. *)
Definition raises_Exception_only {A : Type} (m : outcome A) : Prop :=
  forall e, m = Raise e -> is_Exception e = true.

(** A session all of whose failures are instances of [Exception], as
    the errors of the driver and of SQLAlchemy are. *)
Definition fails_with_Exception_only (db : session) : Prop :=
  raises_Exception_only (enter db) /\
  (forall sql params,
      raises_Exception_only (execute_text db sql params) /\
      (forall c, execute_text db sql params = Return c ->
                 raises_Exception_only (fetchall c) /\
                 raises_Exception_only (rowcount c))) /\
  raises_Exception_only (commit db) /\
  raises_Exception_only (leave db) /\
  (forall e, is_Exception e = true -> is_Exception (unwind db e) = true).

(** *** [_check_table_compatibility] *)

(** [str(n)] for an integer. *)
Definition str_of_Z (n : Z) : string :=
  DecimalString.NilZero.string_of_int (Z.to_int n).

(** An [Optional[int]] inside an f-string. *)
Definition format_dim (d : option Z) : string :=
  match d with
  | Some n => str_of_Z n
  | None => "None"
  end.

(** A [DistanceStrategy] member inside an f-string (Python 3.11 and
    later print the member name; earlier versions print its value). *)
Definition format_strategy (s : DistanceStrategy) : string :=
  match s with L2 => "DistanceStrategy.L2" end.

(** [DistanceStrategy(tag)] *)
Definition DistanceStrategy_of (tag : string) : outcome DistanceStrategy :=
  if String.eqb tag "l2" then Return L2
  else Raise (ValueError ("'" ++ tag ++ "' is not a valid DistanceStrategy")).

Definition set_vector_dimension (self : client) (d : option Z) : client :=
  {| _table_name := _table_name self;
     _distance_strategy := _distance_strategy self;
     _vector_dimension := d;
     _drop_existing_table := _drop_existing_table self |}.

Definition set_distance_strategy (self : client) (s : option DistanceStrategy) : client :=
  {| _table_name := _table_name self;
     _distance_strategy := s;
     _vector_dimension := _vector_dimension self;
     _drop_existing_table := _drop_existing_table self |}.

(** [column_definition] is what [get_embedding_column_definition]
    found in the database: the stored dimension and distance tag, each
    [None] when unknown.  The result is the client after the check. *)
Definition _check_table_compatibility (self : client)
           (column_definition : option Z * option string) : outcome client :=
  if _drop_existing_table self then Return self
  else
    let actual_dim := fst column_definition in
    let actual_distance_strategy := snd column_definition in
    self <-
      match actual_dim with
      | Some dim =>
          match _vector_dimension self with
          | None => Return (set_vector_dimension self (Some dim))
          | Some requested =>
              if negb (dim =? requested)%Z then
                Raise (EmbeddingColumnMismatchError
                         ("vecf64(" ++ format_dim actual_dim ++ ")")
                         ("vecf64(" ++ format_dim (_vector_dimension self) ++ ")"))
              else Return self
          end
      | None => Return self
      end ;;
    match actual_distance_strategy with
    | Some tag =>
        match _distance_strategy self with
        | None =>
            s <- DistanceStrategy_of tag ;;
            Return (set_distance_strategy self (Some s))
        | Some requested =>
            if negb (String.eqb tag (strategy_value requested)) then
              Raise (EmbeddingColumnMismatchError
                       ("vecf64(" ++ format_dim actual_dim
                        ++ ") COMMENT 'hnsw(distance=" ++ tag ++ ")'")
                       ("vecf64(" ++ format_dim (_vector_dimension self)
                        ++ ") COMMENT 'hnsw(distance=" ++ format_strategy requested ++ ")'"))
            else Return self
        end
    | None => Return self
    end.

End Client.

Import Client.

(** ** Sample data *)

Module Samples.

(** A client over an L2 collection, and a table holding one record at
    distance 1 from the query vector [[0]]. *)
Definition l2_client : client :=
  {| _table_name := "docs"; _distance_strategy := Some L2;
     _vector_dimension := Some 1%Z; _drop_existing_table := false |}.

Definition one_row : list row :=
  [{| id := "r1"; embedding := [1]; document := "doc1"; meta := VDict [] |}].

(** A client asking for dimension 3. *)
Definition dim3_client (drop_existing_table : bool) : client :=
  {| _table_name := "docs"; _distance_strategy := None;
     _vector_dimension := Some 3%Z; _drop_existing_table := drop_existing_table |}.

(** A session on which every step works and the statement yields one
    row or a row count of 1, and a session whose statement fails. *)
Definition good_cursor : cursor :=
  {| fetchall := Return [[VInt 1]]; rowcount := Return 1%Z |}.

Definition good_session : session :=
  {| enter := Return tt; execute_text := fun _ _ => Return good_cursor;
     commit := Return tt; leave := Return tt; unwind := fun e => e |}.

Definition failing_session : session :=
  {| enter := Return tt;
     execute_text := fun _ _ => Raise (DatabaseError "no such table");
     commit := Return tt; leave := Return tt; unwind := fun e => e |}.

(** The two result lists of the repository's tests. *)
Definition vector_docs : list string := ["doc1"; "doc2"]%string.
Definition full_text_docs : list string := ["doc3"; "doc4"]%string.

Definition rrf_option : rerank_option :=
  {| rerank_type := Some "RRF"%string; rank_value := Some 60%Z;
     weighted_score := None; rerank_score_threshold := None |}.

Definition other_option : rerank_option :=
  {| rerank_type := Some "Union"%string; rank_value := None;
     weighted_score := None; rerank_score_threshold := None |}.

End Samples.

Import Samples.

(** ** Reading the stored column definition ([utils.py]) *)

Module Schema.

(** [\d] on the ASCII range. *)
Definition is_digit (c : ascii) : bool :=
  let n := nat_of_ascii c in (48 <=? n)%nat && (n <=? 57)%nat.

(** The longest prefix of [s] whose characters satisfy [p], and the rest:
    what a greedy [p+] takes, when there is no way to match with less. *)
Fixpoint span (p : ascii -> bool) (s : string) : string * string :=
  match s with
  | EmptyString => (EmptyString, EmptyString)
  | String c s' =>
      if p c then (String c (fst (span p s')), snd (span p s'))
      else (EmptyString, s)
  end.

(** [s[n:]] *)
Fixpoint skip (n : nat) (s : string) : string :=
  match n, s with
  | O, _ => s
  | S n', String _ s' => skip n' s'
  | S _, EmptyString => EmptyString
  end.

(** [int(digits)] on a run of decimal digits. *)
Definition int_of_digits (digits : string) : Z :=
  match NilEmpty.uint_of_string digits with
  | Some d => Z.of_uint d
  | None => 0%Z
  end.

(** Group 1 of [VECTOR(?:\((\d+)\))?] given the text after the word: the
    digits of a parenthesised number that follows at once, if any. *)
Definition dimension_group (after : string) : option string :=
  match after with
  | String "("%char rest =>
      match fst (span is_digit rest), snd (span is_digit rest) with
      | String d ds, String ")"%char _ => Some (String d ds)
      | _, _ => None
      end
  | _ => None
  end.

(** [re.search(r"VECTOR(?:\((\d+)\))?", s, re.IGNORECASE)]: [None] when
    the word occurs nowhere, otherwise group 1 of the leftmost match,
    itself [None] when the optional group took no part. *)
Fixpoint search_vector (s : string) : option (option string) :=
  match s with
  | EmptyString => None
  | String _ s' =>
      if prefix "vector" (lower s) then Some (dimension_group (skip 6 s))
      else search_vector s'
  end.

(** A character of the class [[^,\)]]. *)
Definition tag_char (c : ascii) : bool :=
  negb (Ascii.eqb c ","%char) && negb (Ascii.eqb c ")"%char).

(** [re.search(r"distance=([^,\)]+)", s)]: group 1 of the leftmost match. *)
Fixpoint search_distance (s : string) : option string :=
  match s with
  | EmptyString => None
  | String _ s' =>
      if prefix "distance=" s then
        match fst (span tag_char (skip 9 s)) with
        | EmptyString => search_distance s'
        | tag => Some tag
        end
      else search_distance s'
  end.

Definition extract_info_from_column_definition (column_type column_comment : string)
  : option Z * option string :=
  let dimension_match := search_vector column_type in
  let dimension :=
    match dimension_match with
    | Some (Some digits) => Some (int_of_digits digits)
    | _ => None
    end in
  let distance_match := search_distance column_comment in
  (dimension, distance_match).

(** [result] is the row [fetchone()] found in INFORMATION_SCHEMA.COLUMNS
    for the table's embedding column, [None] when there is none. *)
Definition get_embedding_column_definition (result : option (string * string))
  : option Z * option string :=
  match result with
  | Some (column_type, column_comment) =>
      extract_info_from_column_definition column_type column_comment
  | None => (None, None)
  end.

(** The compatibility check as [__init__] runs it: on the definition
    read back from the database. *)
Definition check_on_open (self : client) (result : option (string * string))
  : outcome client :=
  _check_table_compatibility self (get_embedding_column_definition result).

End Schema.

Import Schema.

(** ** Insert, full-text and hybrid search ([vector_client.py]) *)

Module Hybrid.

(** [sep.join(parts)] *)
Fixpoint join (sep : string) (parts : list string) : string :=
  match parts with
  | [] => EmptyString
  | [part] => part
  | part :: rest => (part ++ sep ++ join sep rest)%string
  end.

(** [" ".join([f"+{keyword}" for keyword in keywords])] *)
Definition keywords_string (keywords : list string) : string :=
  join " " (map (fun keyword => ("+" ++ keyword)%string) keywords).

(** The option [mix_query] falls back on. *)
Definition default_rerank_option : rerank_option :=
  {| rerank_type := Some "RRF"%string; rank_value := Some 60%Z;
     weighted_score := None; rerank_score_threshold := Some 1 |}.

(** Truth value of an [Optional[List]]: [None] and the empty list are
    false. *)
Definition truthy_list {A : Type} (l : option (list A)) : bool :=
  match l with
  | Some (_ :: _) => true
  | _ => false
  end.

(** [zip(ids, texts, metadatas, embeddings)] mapped to table rows: the
    objects [insert] adds to the session. *)
Fixpoint embedded_docs (ids texts : list string) (metadatas : list value)
         (embeddings : list (list R)) : list row :=
  match ids, texts, metadatas, embeddings with
  | i :: ids', t :: texts', m :: metadatas', e :: embeddings' =>
      {| id := i; embedding := e; document := t; meta := m |}
        :: embedded_docs ids' texts' metadatas' embeddings'
  | _, _, _, _ => []
  end.

Section Search.

Variable json_holds : cmp -> string -> value -> value -> bool.

(** What the database answers to the full-text statement, which selects
    [id], [meta], [document] and
    [match(document) against('<keywords_string>' in boolean mode)] from
    the table, filtered by the metadata predicate and limited to [k]
    rows: the rows (the fourth column in place of the distance), or the
    error.  Which rows a match expression in the select list lets
    through is the database's affair. *)
Variable fulltext_rows : list row -> string -> clause -> nat -> outcome (list hit).

Definition _fulltext_search (table : list row) (keywords : option (list string))
           (k : nat) (filter : option mapping) : outcome (list hit) :=
  match keywords with
  | None => Raise (TypeError "'NoneType' object is not iterable")
  | Some keywords =>
      let keywords_string := keywords_string keywords in
      filter_by <- _build_filter_clause filter ;;
      fulltext_rows table keywords_string filter_by k
  end.

Definition full_text_query (table : list row) (key_words : option (list string))
           (k : nat) (filter : option mapping) : outcome (list hit) :=
  full_text_result <- _fulltext_search table key_words k filter ;;
  Return (map (fun record => {| hit_id := hit_id record; hit_meta := hit_meta record;
                                hit_document := hit_document record;
                                distance := distance record |}) full_text_result).

(** [[self.query(query, ...) for query in query_vectors]] *)
Fixpoint batch_query (self : client) (table : list row) (query_vectors : list (list R))
         (k : nat) (filter : option mapping) (dis_lower_bound dis_upper_bound : option R)
  : outcome (list (list hit)) :=
  match query_vectors with
  | [] => Return []
  | q :: rest =>
      r <- query json_holds self table q k filter dis_lower_bound dis_upper_bound ;;
      rs <- batch_query self table rest k filter dis_lower_bound dis_upper_bound ;;
      Return (r :: rs)
  end.

Definition mix_query (self : client) (table : list row) (query_vector : list R)
           (key_words : option (list string)) (rerank : option rerank_option)
           (k : nat) (filter : option mapping)
           (dis_lower_bound dis_upper_bound : option R) : outcome rerank_result :=
  vector_result <- _vector_search json_holds self table query_vector k filter
                     dis_lower_bound dis_upper_bound ;;
  full_text_result <- _fulltext_search table key_words k filter ;;
  let rerank :=
    match rerank with
    | None => default_rerank_option
    | Some given => given
    end in
  rerank_data (map hit_document vector_result) (map hit_document full_text_result)
              (Z.of_nat k) rerank.

End Search.

Section Insert.

(** The identifiers [uuid.uuid4()] yields, by order of the call. *)
Variable uuid4 : nat -> string.

(** The database's verdict on committing new rows to a table: the table
    afterwards, or the error (a duplicate key, a vector of the wrong
    dimension). *)
Variable commit : list row -> list row -> outcome (list row).

(** Returns the ids and the table after the commit. *)
Definition insert (table : list row) (texts : list string) (embeddings : list (list R))
           (metadatas : option (list value)) (ids : option (list string))
  : outcome (list string * list row) :=
  let ids :=
    match ids with
    | None => map uuid4 (seq 0 (List.length texts))
    | Some ids => ids
    end in
  let metadatas :=
    match metadatas with
    | Some given => if truthy_list metadatas then given else map (fun _ => VDict []) texts
    | None => map (fun _ => VDict []) texts
    end in
  table' <- commit table (embedded_docs ids texts metadatas embeddings) ;;
  Return (ids, table').

End Insert.

End Hybrid.

Import Hybrid.

(** ** Shapes of filters *)

Module Shapes.

(** A key that is [$and] or [$or], in any letter case. *)
Definition combinator (key : string) : bool :=
  String.eqb (lower key) "$and" || String.eqb (lower key) "$or".

(** A value a [for] loop can run over. *)
Definition iterable (v : value) : bool :=
  match v with
  | VList _ | VDict _ | VStr _ => true
  | _ => false
  end.

(** A predicate that is one comparison, and one that is the conjunction
    [and_(true(), ...)] of comparisons: what a mapping of fields
    compiles to. *)
Definition atom (c : clause) : bool :=
  match c with
  | CJson _ _ _ => true
  | _ => false
  end.

Definition plain (c : clause) : bool :=
  match c with
  | CAnd (CTrue :: comparisons) => forallb atom comparisons
  | _ => false
  end.

(** The operator keys in the order [_create_filter_clause] asks for
    them, each with the comparison it stands for. *)
Definition precedence : list (string * cmp) :=
  [("$in", OpIn); ("$nin", OpNotIn); ("$gt", OpGt); ("$gte", OpGe);
   ("$lt", OpLt); ("$lte", OpLe); ("$ne", OpNe); ("$eq", OpEq)]%string.

(** The last value a nested mapping holds under a key that spells [op]
    in some letter case. *)
Definition operand (nested : mapping) (op : string) : option value :=
  match List.filter (fun kv => String.eqb (lower (fst kv)) op) (rev nested) with
  | kv :: _ => Some (snd kv)
  | [] => None
  end.

(** The comparison a nested mapping asks for: the first operator, in
    the order of [precedence], of which it holds a spelling, with its
    operand. *)
Fixpoint chosen (nested : mapping) (ops : list (string * cmp)) : option (cmp * value) :=
  match ops with
  | [] => None
  | (op, c) :: rest =>
      match operand nested op with
      | Some v => Some (c, v)
      | None => chosen nested rest
      end
  end.

(** A nested mapping whose comparison, if it asks for one, can be
    built. *)
Definition comparable (nested : mapping) : bool :=
  match chosen nested precedence with
  | Some (c, v) => operand_ok c v
  | None => true
  end.

(** The filters without a fault: a mapping none of whose keys is a bare
    operator, whose combinators hold an iterable value, whose
    combinator lists hold, among their mapping elements, only filters
    without a fault, and whose fields with a nested mapping ask for a
    comparison that can be built. *)
Fixpoint faultless (filters : value) : bool :=
  match filters with
  | VDict items =>
      forallb
        (fun kv =>
           if combinator (fst kv) then
             match snd kv with
             | VList conds =>
                 forallb (fun c => match c with
                                   | VDict _ => faultless c
                                   | _ => true
                                   end) conds
             | other => iterable other
             end
           else
             negb (str_in (lower (fst kv)) bare_operators)
             && match snd kv with
                | VDict nested => comparable nested
                | _ => true
                end)
        items
  | _ => false
  end.

End Shapes.

Import Shapes.

(** ** More sample data *)

Module MoreSamples.

(** Three records at distances 3, 1 and 2 from the query vector [[0]]. *)
Definition three_rows : list row :=
  [{| id := "a"; embedding := [3]; document := "far"; meta := VDict [] |};
   {| id := "b"; embedding := [1]; document := "near"; meta := VDict [] |};
   {| id := "c"; embedding := [2]; document := "mid"; meta := VDict [] |}].



(** A full-text answer: the record [c] of [three_rows] with relevance 1,
    whatever is asked. *)
Definition mid_hit : hit :=
  {| hit_id := "c"; hit_meta := VDict []; hit_document := "mid"; distance := 1 |}.

Definition full_text_sample (table : list row) (keywords_string : string)
           (filter_by : clause) (k : nat) : outcome (list hit) :=
  Return [mid_hit].

End MoreSamples.

Import MoreSamples.

(** ** [mo_vector/client/utils.py], scores as binary64 numbers *)

Module F64.

Local Open Scope Z_scope.

(** A Python [float] is an IEEE 754 binary64 number. *)
Definition float : Type := spec_float.

Definition prec : Z := 53.
Definition emax : Z := 1024.

Definition add : float -> float -> float := SFadd prec emax.
Definition mul : float -> float -> float := SFmul prec emax.
Definition div : float -> float -> float := SFdiv prec emax.
Definition ltb : float -> float -> bool := SFltb.
Definition leb : float -> float -> bool := SFleb.
Definition eqb : float -> float -> bool := SFeqb.

Definition is_nan (x : float) : bool :=
  match x with
  | S754_nan => true
  | _ => false
  end.

(** An [int] as an operand of a division: its exact value, whatever its
    size, so that the quotient is rounded once. *)
Definition exact (n : Z) : float :=
  match n with
  | Z0 => S754_zero false
  | Zpos p => S754_finite false p 0
  | Zneg p => S754_finite true p 0
  end.

(** [float(n)]: the nearest binary64 number (Python raises
    [OverflowError] where this is an infinity, from 2^1024 on; the ranks
    converted here are list positions). *)
Definition of_int (n : Z) : float := binary_normalize prec emax n 0 false.

(** [a / b] on two [int]s: the correctly rounded quotient. *)
Definition true_divide (a b : Z) : outcome float :=
  if (b =? 0)%Z then Raise ZeroDivisionError else Return (div (exact a) (exact b)).

(** The float literal with the given decimal digits, [places] of them
    after the point: [decimal 6 1] is [0.6]. *)
Definition decimal (digits : Z) (places : nat) : float :=
  div (exact digits) (exact (10 ^ Z.of_nat places)).

(** [math.pi], [0x1.921fb54442d18p+1]. *)
Definition pi : float := S754_finite false 7074237752028440 (-51).

(** A score table: the [dict] from item to accumulated score. *)
Definition dict : Type := list (string * float).

(** [text in d] *)
Fixpoint contains (d : dict) (text : string) : bool :=
  match d with
  | [] => false
  | (t, _) :: d' => String.eqb t text || contains d' text
  end.

(** [d[text] += s], for a key that is present. *)
Fixpoint iadd (d : dict) (text : string) (s : float) : dict :=
  match d with
  | [] => []
  | (t, v) :: d' =>
      if String.eqb t text then (t, add v s) :: d' else (t, v) :: iadd d' text s
  end.

(** [if text in d: d[text] += s else: d[text] = s] *)
Definition accumulate (d : dict) (text : string) (s : float) : dict :=
  if contains d text then iadd d text s else d ++ [(text, s)].

(** [sorted(d.items(), key=lambda x: x[1], reverse=True)]: a stable
    sort that compares keys with [<]. *)
Fixpoint insert_desc (x : string * float) (l : list (string * float))
  : list (string * float) :=
  match l with
  | [] => [x]
  | y :: l' =>
      if ltb (snd x) (snd y) then y :: insert_desc x l' else x :: y :: l'
  end.

Fixpoint sorted_desc (l : list (string * float)) : list (string * float) :=
  match l with
  | [] => []
  | x :: l' => insert_desc x (sorted_desc l')
  end.

(** [[[score, text] for text, score in sorted_results[:k]]] *)
Definition top_k (sorted_results : list (string * float)) (k : Z)
  : list (float * string) :=
  map (fun x => (snd x, fst x)) (slice_to sorted_results k).

Section Libm.

(** [math.atan], the arctangent of the platform's C library. *)
Variable atan : float -> float.

Definition arctan_normalize (score : float) : float :=
  add (mul (div (decimal 10 1) pi) (atan score)) (decimal 5 1).

(** [original_score] is a rank, an [int]; [math.atan] converts its
    argument to a [float]. *)
Definition convert_metric_score (original_score : Z) (metric_type : string) : float :=
  let metric_type := "l2"%string in
  let score_for_arctan :=
    if str_in (lower metric_type) ["l2"; "euclidean"]%string then (- original_score)%Z
    else if str_in (lower metric_type) ["ip"; "inner_product"]%string then original_score
    else if str_in (lower metric_type) ["cosine"]%string then original_score
    else original_score in
  arctan_normalize (of_int score_for_arctan).

Fixpoint weighted_loop (weights : list float) (all_results : list (Z * string * string))
         (doc_score_map : dict) : outcome dict :=
  match all_results with
  | [] => Return doc_score_map
  | (score, text, model_type) :: rest =>
      weight <- (if String.eqb model_type "vector" then getitem weights 0
                 else getitem weights 1) ;;
      let norm_score := convert_metric_score score model_type in
      let weighted_score := mul norm_score weight in
      weighted_loop weights rest (accumulate doc_score_map text weighted_score)
  end.

Definition weighted_rank (vector_query_result full_text_query_result : list string)
           (k : Z) (weights : list float) : outcome (list (float * string)) :=
  let all_results :=
    tagged vector_query_result "vector" ++ tagged full_text_query_result "full_text" in
  doc_score_map <- weighted_loop weights all_results [] ;;
  let sorted_results := sorted_desc doc_score_map in
  Return (top_k sorted_results k).

End Libm.

(** One [for score, text in enumerate(..., start=1)] loop of
    [rrf_rerank]. *)
Fixpoint rrf_loop (rank_value : Z) (ranked : list (Z * string)) (rrf_scores : dict)
  : outcome dict :=
  match ranked with
  | [] => Return rrf_scores
  | (score, text) :: rest =>
      rrf_score <- true_divide 1 (rank_value + score) ;;
      rrf_loop rank_value rest (accumulate rrf_scores text rrf_score)
  end.

Definition rrf_rerank (vector_query_result full_text_query_result : list string)
           (k : Z) (rank_value : Z) : outcome (list (float * string)) :=
  rrf_scores <- rrf_loop rank_value (enumerate vector_query_result 1) [] ;;
  rrf_scores <- rrf_loop rank_value (enumerate full_text_query_result 1) rrf_scores ;;
  let sorted_results := sorted_desc rrf_scores in
  Return (top_k sorted_results k).

(** *** Vocabulary for statements about scores *)

(** The score of [x] after a loop over [l], the head of [l] having rank
    [start]: every rank at which [x] stands adds [contribution r] to the
    score so far, the first one being taken as it is.  [None] is an item
    that has no score yet. *)
Fixpoint rank_sum (contribution : Z -> float) (l : list string) (start : Z)
         (x : string) (so_far : option float) : option float :=
  match l with
  | [] => so_far
  | y :: l' =>
      rank_sum contribution l' (start + 1) x
        (if String.eqb y x then
           Some (match so_far with
                 | Some a => add a (contribution start)
                 | None => contribution start
                 end)
         else so_far)
  end.

(** The two contributions: the reciprocal rank with constant [c], and
    the normalised negated rank times a weight. *)
Definition reciprocal (c : Z) (r : Z) : float := div (exact 1) (exact (c + r)).

Definition weighted (atan : float -> float) (w : float) (r : Z) : float :=
  mul (arctan_normalize atan (of_int (- r))) w.

Definition rrf_total (c : Z) (v f : list string) (x : string) : option float :=
  rank_sum (reciprocal c) f 1 x (rank_sum (reciprocal c) v 1 x None).

Definition weighted_total (atan : float -> float) (w0 w1 : float)
           (v f : list string) (x : string) : option float :=
  rank_sum (weighted atan w1) f 1 x (rank_sum (weighted atan w0) v 1 x None).

(** Entry [a] may stand before entry [b] in a descending ranking. *)
Definition descending (a b : string * float) : Prop := leb (snd b) (snd a) = true.

(** The score [total x], when it is one, equals [s]. *)
Definition scores (total : string -> option float) (s : float) (x : string) : bool :=
  match total x with
  | Some t => eqb t s
  | None => false
  end.

(** What a ranking is to the two input lists, given the fused score of
    each item: it lists every item once, with its fused score, in
    descending order of score, items of equal score in first-seen
    order. *)
Definition fused_ranking (total : string -> option float) (v f : list string)
           (ranking : list (string * float)) : Prop :=
  Permutation (map fst ranking) (first_seen (v ++ f)) /\
  NoDup (map fst ranking) /\
  (forall x s, In (x, s) ranking -> total x = Some s) /\
  StronglySorted descending ranking /\
  (forall s, map fst (List.filter (fun p => eqb (snd p) s) ranking)
             = List.filter (scores total s) (first_seen (v ++ f))).

(** The score table after a loop that never raises. *)
Fixpoint accumulate_all (contribution : Z -> float) (ranked : list (Z * string))
         (d : dict) : dict :=
  match ranked with
  | [] => d
  | (r, text) :: rest => accumulate_all contribution rest (accumulate d text (contribution r))
  end.

(** [d.get(x)] *)
Fixpoint lookup (d : dict) (x : string) : option float :=
  match d with
  | [] => None
  | (t, v) :: d' => if String.eqb t x then Some v else lookup d' x
  end.

(** A number that is zero or has sign [s] (true: negative). *)
Definition signed (s : bool) (x : float) : Prop :=
  match x with
  | S754_zero _ => True
  | S754_infinity s' | S754_finite s' _ _ => s' = s
  | S754_nan => False
  end.

(** A float as a point of a linear order: which of the five classes it
    is in, and where it stands in its class. *)
Definition key (x : float) : Z * Z * Z :=
  match x with
  | S754_zero _ | S754_nan => (0, 0, 0)
  | S754_infinity false => (2, 0, 0)
  | S754_infinity true => (-2, 0, 0)
  | S754_finite false m e => (1, e, Zpos m)
  | S754_finite true m e => (-1, - e, Zneg m)
  end.

Definition below (a b : Z * Z * Z) : Prop :=
  fst (fst a) < fst (fst b)
  \/ (fst (fst a) = fst (fst b)
      /\ (snd (fst a) < snd (fst b) \/ (snd (fst a) = snd (fst b) /\ snd a < snd b))).

(** A score that is a number. *)
Definition no_nan (kv : string * float) : Prop := is_nan (snd kv) = false.

(** The table [rrf_rerank] sorts when no division fails. *)
Definition rrf_table (c : Z) (v f : list string) : dict :=
  accumulate_all (reciprocal c) (enumerate f 1)
    (accumulate_all (reciprocal c) (enumerate v 1) []).

(** The table [weighted_rank] sorts, given both weights. *)
Definition weighted_table (atan : float -> float) (w0 w1 : float)
           (v f : list string) : dict :=
  accumulate_all (weighted atan w1) (enumerate f 1)
    (accumulate_all (weighted atan w0) (enumerate v 1) []).

(** *** An arctangent by table *)

(** The same datum: the same class, sign, mantissa and exponent. *)
Definition same (x y : float) : bool :=
  match x, y with
  | S754_zero s, S754_zero s' | S754_infinity s, S754_infinity s' => Bool.eqb s s'
  | S754_nan, S754_nan => true
  | S754_finite s m e, S754_finite s' m' e' => Bool.eqb s s' && Pos.eqb m m' && Z.eqb e e'
  | _, _ => false
  end.

(** The function that takes the listed arguments to the listed values
    and is not a number elsewhere. *)
Fixpoint tabulated (table : list (float * float)) (x : float) : float :=
  match table with
  | [] => S754_nan
  | (a, b) :: rest => if same a x then b else tabulated rest x
  end.

(** The binary64 numbers nearest to pi/4, pi/2 and atan 2:
    [0x1.921fb54442d18p-1], [0x1.921fb54442d18p+0] and
    [0x1.1b6e192ebbe44p+0]; and the next number after the last,
    [0x1.1b6e192ebbe45p+0]. *)
Definition quarter_pi : float := S754_finite false 7074237752028440 (-53).
Definition half_pi : float := S754_finite false 7074237752028440 (-52).
Definition atan_2 : float := S754_finite false 4986154552901188 (-52).
Definition atan_2_next : float := S754_finite false 4986154552901189 (-52).

(** An arctangent that is correctly rounded at the arguments the
    examples use, and one that is a unit in the last place off at -2. *)
Definition atan_nearest : float -> float :=
  tabulated [(of_int 0, of_int 0);
             (of_int 1, quarter_pi); (of_int (-1), SFopp quarter_pi);
             (of_int (-2), SFopp atan_2);
             (of_int (10 ^ 17), half_pi); (of_int (10 ^ 18), half_pi);
             (of_int (- 10 ^ 17), SFopp half_pi)].

Definition atan_last_place : float -> float :=
  tabulated [(of_int (-1), SFopp quarter_pi); (of_int (-2), SFopp atan_2_next)].

End F64.

(** ** Score normalisation *)

Lemma arctan_normalize_increasing (x y : R) :
  x < y -> arctan_normalize x < arctan_normalize y.
Proof.
  intros Hxy. unfold arctan_normalize.
  pose proof (atan_increasing x y Hxy) as Hat.
  pose proof PI_RGT_0 as Hpi.
  assert (Hinv : 0 < 1 / PI) by (apply Rdiv_lt_0_compat; lra).
  apply Rplus_lt_compat_r, Rmult_lt_compat_l; assumption.
Qed.

(** ** Distance bounds of the vector search *)

Lemma truthy_zero : truthy (Some 0) = false.
Proof. unfold truthy. destruct (Req_dec_T 0 0) as [_|H]; [reflexivity | now elim H]. Qed.

Lemma truthy_None : truthy None = false.
Proof. reflexivity. Qed.

Lemma l2_distance_1_0 : l2_distance [1] [0] = 1.
Proof.
  unfold l2_distance. simpl.
  replace ((1 - 0) * (1 - 0) + 0) with 1 by lra.
  apply sqrt_1.
Qed.

(** C1 (the code departs from the claim): a bound of exactly 0 is dropped.
    A query with [dis_lower_bound = 0] or [dis_upper_bound = 0] is the same
    query as one with that bound left at [None]; with [dis_upper_bound = 0]
    a record at distance 1 is returned although 1 <= 0 fails. *)
Theorem query_zero_bound_dropped :
  (forall jh self table q k flt ub,
      query jh self table q k flt (Some 0) ub = query jh self table q k flt None ub) /\
  (forall jh self table q k flt lb,
      query jh self table q k flt lb (Some 0) = query jh self table q k flt lb None) /\
  (exists h,
      query reference_json_holds l2_client one_row [0] 5 None None (Some 0) = Return [h] /\
      hit_id h = "r1"%string /\ distance h = 1 /\ ~ distance h <= 0).
Proof.
  split; [|split].
  - intros. unfold query, _vector_search. rewrite truthy_zero. reflexivity.
  - intros. unfold query, _vector_search. rewrite truthy_zero. reflexivity.
  - exists {| hit_id := "r1"; hit_meta := VDict []; hit_document := "doc1";
              distance := l2_distance [1] [0] |}.
    split; [|split; [|split]].
    + unfold query, _vector_search. rewrite truthy_zero. reflexivity.
    + reflexivity.
    + apply l2_distance_1_0.
    + cbn [distance]. rewrite l2_distance_1_0. lra.
Qed.

(** ** [delete] *)

Lemma build_filter_clause_None : _build_filter_clause None = Return CTrue.
Proof. reflexivity. Qed.




(** ** Compatibility of an existing table *)

(** C9 as stated fails when the table is about to be dropped: the check
    is skipped and a stored dimension of 4 against a requested 3 goes
    through. *)
Lemma check_skipped_when_dropping :
  _vector_dimension (dim3_client true) = Some 3%Z /\
  _check_table_compatibility (dim3_client true) (Some 4%Z, None)
  = Return (dim3_client true).
Proof. split; reflexivity. Qed.

(** C9 (amended): unless the existing table is to be dropped, a known
    stored dimension that differs from the requested one raises
    [EmbeddingColumnMismatchError] carrying [vecf64(stored)] and
    [vecf64(requested)]; and, when the dimensions do not clash, a known
    stored distance tag that differs from the requested strategy raises it
    carrying both column definitions with their distance comments.  A
    stored 4 against a requested 3 gives [vecf64(4)] and [vecf64(3)]. *)
Theorem check_table_compatibility_mismatch (self : client)
        (actual_dim : option Z) (actual_tag : option string) :
  _drop_existing_table self = false ->
  (forall dim requested,
      actual_dim = Some dim -> _vector_dimension self = Some requested ->
      dim <> requested ->
      _check_table_compatibility self (actual_dim, actual_tag)
      = Raise (EmbeddingColumnMismatchError
                 ("vecf64(" ++ str_of_Z dim ++ ")")
                 ("vecf64(" ++ str_of_Z requested ++ ")"))) /\
  (forall tag requested,
      actual_tag = Some tag -> _distance_strategy self = Some requested ->
      tag <> strategy_value requested ->
      (actual_dim = None \/ _vector_dimension self = None \/
       actual_dim = _vector_dimension self) ->
      _check_table_compatibility self (actual_dim, actual_tag)
      = Raise (EmbeddingColumnMismatchError
                 ("vecf64(" ++ format_dim actual_dim
                  ++ ") COMMENT 'hnsw(distance=" ++ tag ++ ")'")
                 ("vecf64(" ++ format_dim
                       (match _vector_dimension self with
                        | Some d => Some d
                        | None => actual_dim
                        end)
                  ++ ") COMMENT 'hnsw(distance=" ++ format_strategy requested ++ ")'"))) /\
  _check_table_compatibility (dim3_client false) (Some 4%Z, None)
  = Raise (EmbeddingColumnMismatchError "vecf64(4)" "vecf64(3)").
Proof.
  intros Hdrop. split; [|split].
  - intros dim requested -> Hreq Hne.
    unfold _check_table_compatibility. rewrite Hdrop. cbn [fst snd].
    rewrite Hreq.
    destruct (Z.eqb_spec dim requested) as [E|_]; [contradiction|].
    reflexivity.
  - intros tag requested -> Hreq Hne Hdim.
    assert (Htag : (tag =? strategy_value requested)%string = false)
      by (apply String.eqb_neq; exact Hne).
    unfold _check_table_compatibility. rewrite Hdrop. cbn [fst snd].
    destruct actual_dim as [dim|], (_vector_dimension self) as [req|] eqn:Hvd;
      cbn [bind negb set_vector_dimension _distance_strategy _vector_dimension].
    + destruct Hdim as [H|[H|H]]; try discriminate.
      injection H as ->. rewrite Z.eqb_refl. cbn [negb bind].
      rewrite Hreq, Hvd, Htag. reflexivity.
    + rewrite Hreq, Htag. reflexivity.
    + rewrite Hreq, Hvd, Htag. reflexivity.
    + rewrite Hreq, Hvd, Htag. reflexivity.
  - reflexivity.
Qed.

Lemma check_table_compatibility_mismatch_witness :
  _check_table_compatibility (dim3_client false) (Some 4%Z, Some "l2"%string)
  = Raise (EmbeddingColumnMismatchError "vecf64(4)" "vecf64(3)").
Proof.
  apply (proj1 (check_table_compatibility_mismatch (dim3_client false)
                  (Some 4%Z) (Some "l2"%string) eq_refl) 4%Z 3%Z);
    [reflexivity | reflexivity | discriminate].
Defined.

(** ** [execute] *)

(** C8: on a session whose failures are all instances of [Exception],
    [execute] always returns an envelope.  When every step succeeds the
    envelope reports success, no error, and the fetched rows for a
    statement that starts with "select", the row count otherwise; and a
    success envelope comes about in no other way.  When a step raises,
    whichever it is, the envelope reports failure, no result, and the
    text of the exception that leaves the [with] statement. *)
Theorem execute_never_raises (db : session) (sql : string) (params : option mapping) :
  fails_with_Exception_only db ->
  (exists env, execute db sql params = Return env) /\
  (forall c,
      enter db = Return tt -> execute_text db sql params = Return c ->
      commit db = Return tt -> leave db = Return tt ->
      (forall rows,
          prefix "select" (lower (strip sql)) = true -> fetchall c = Return rows ->
          execute db sql params
          = Return {| success := true; result := Some (Rows rows); error := None |}) /\
      (forall n,
          prefix "select" (lower (strip sql)) = false -> rowcount c = Return n ->
          execute db sql params
          = Return {| success := true; result := Some (Rowcount n); error := None |})) /\
  (forall env, execute_try db sql params = Return env ->
      execute db sql params = Return env /\
      success env = true /\ error env = None /\
      exists c, execute_text db sql params = Return c /\
        ((prefix "select" (lower (strip sql)) = true /\
          exists rows, fetchall c = Return rows /\ result env = Some (Rows rows)) \/
         (prefix "select" (lower (strip sql)) = false /\
          exists n, rowcount c = Return n /\ result env = Some (Rowcount n)))) /\
  (forall e, execute_try db sql params = Raise e ->
      execute db sql params =
        Return {| success := false; result := None; error := Some (str_of_exn e) |}) /\
  (forall e, enter db = Raise e ->
      execute db sql params =
        Return {| success := false; result := None; error := Some (str_of_exn e) |}) /\
  (forall e, enter db = Return tt -> execute_text db sql params = Raise e ->
      execute db sql params =
        Return {| success := false; result := None;
                  error := Some (str_of_exn (unwind db e)) |}) /\
  (forall c e, enter db = Return tt -> execute_text db sql params = Return c ->
      commit db = Raise e ->
      execute db sql params =
        Return {| success := false; result := None;
                  error := Some (str_of_exn (unwind db e)) |}) /\
  (forall c e, enter db = Return tt -> execute_text db sql params = Return c ->
      commit db = Return tt ->
      (if prefix "select" (lower (strip sql))
       then fetchall c = Raise e else rowcount c = Raise e) ->
      execute db sql params =
        Return {| success := false; result := None;
                  error := Some (str_of_exn (unwind db e)) |}) /\
  (forall c e, enter db = Return tt -> execute_text db sql params = Return c ->
      commit db = Return tt ->
      (if prefix "select" (lower (strip sql))
       then returns (fetchall c) else returns (rowcount c)) ->
      leave db = Raise e ->
      execute db sql params =
        Return {| success := false; result := None; error := Some (str_of_exn e) |}).
Proof.
  intros (Henter & Hexec & Hcommit & Hleave & Hunwind).
  destruct (Hexec sql params) as [Hrun Hcur].
  assert (Hexc : forall e, execute_try db sql params = Raise e -> is_Exception e = true).
  { unfold execute_try, with_session. intros e.
    destruct (enter db) as [[]|e0] eqn:E0; cbn [bind].
    2:{ intros [= <-]. now apply Henter. }
    destruct (execute_text db sql params) as [c|e1] eqn:E1; cbn [bind].
    2:{ intros [= <-]. apply Hunwind. now apply Hrun. }
    destruct (Hcur c eq_refl) as [Hf Hr].
    destruct (commit db) as [[]|e2] eqn:E2; cbn [bind].
    2:{ intros [= <-]. apply Hunwind. now apply Hcommit. }
    destruct (prefix "select" (lower (strip sql))).
    - destruct (fetchall c) as [rows|e3] eqn:E3; cbn [bind].
      + destruct (leave db) as [[]|e4] eqn:E4; cbn [bind]; [discriminate|].
        intros [= <-]. now apply Hleave.
      + intros [= <-]. apply Hunwind. now apply Hf.
    - destruct (rowcount c) as [n|e3] eqn:E3; cbn [bind].
      + destruct (leave db) as [[]|e4] eqn:E4; cbn [bind]; [discriminate|].
        intros [= <-]. now apply Hleave.
      + intros [= <-]. apply Hunwind. now apply Hr. }
  assert (Hfail : forall e, execute_try db sql params = Raise e ->
            execute db sql params =
              Return {| success := false; result := None; error := Some (str_of_exn e) |}).
  { intros e He. unfold execute, try_except_Exception.
    rewrite He, (Hexc e He). reflexivity. }
  split; [|split; [|split; [|split; [|split; [|split; [|split; [|split]]]]]]].
  - unfold execute, try_except_Exception.
    destruct (execute_try db sql params) as [env|e] eqn:E; [eauto|].
    rewrite (Hexc e eq_refl). eauto.
  - intros c E0 E1 E2 E4. split.
    + intros rows Hsel E3. unfold execute, try_except_Exception, execute_try, with_session.
      rewrite E0, E1, E2. cbn [bind]. rewrite Hsel, E3. cbn [bind]. now rewrite E4.
    + intros n Hsel E3. unfold execute, try_except_Exception, execute_try, with_session.
      rewrite E0, E1, E2. cbn [bind]. rewrite Hsel, E3. cbn [bind]. now rewrite E4.
  - intros env Henv. split.
    { unfold execute, try_except_Exception. now rewrite Henv. }
    revert Henv. unfold execute_try, with_session.
    destruct (enter db) as [[]|e0]; cbn [bind]; [|discriminate].
    destruct (execute_text db sql params) as [c|e1]; cbn [bind]; [|discriminate].
    destruct (commit db) as [[]|e2]; cbn [bind]; [|discriminate].
    destruct (prefix "select" (lower (strip sql))) eqn:Hsel.
    + destruct (fetchall c) as [rows|e3] eqn:Hrows; cbn [bind]; [|discriminate].
      destruct (leave db) as [[]|e4]; cbn [bind]; [|discriminate].
      intros [= <-]. cbn. split; [reflexivity|]. split; [reflexivity|].
      exists c. split; [reflexivity|]. left. split; [reflexivity|].
      exists rows. split; [exact Hrows | reflexivity].
    + destruct (rowcount c) as [n|e3] eqn:Hn; cbn [bind]; [|discriminate].
      destruct (leave db) as [[]|e4]; cbn [bind]; [|discriminate].
      intros [= <-]. cbn. split; [reflexivity|]. split; [reflexivity|].
      exists c. split; [reflexivity|]. right. split; [reflexivity|].
      exists n. split; [exact Hn | reflexivity].
  - exact Hfail.
  - intros e E0. apply Hfail. unfold execute_try, with_session. now rewrite E0.
  - intros e E0 E1. apply Hfail. unfold execute_try, with_session. now rewrite E0, E1.
  - intros c e E0 E1 E2. apply Hfail. unfold execute_try, with_session.
    now rewrite E0, E1, E2.
  - intros c e E0 E1 E2 E3. apply Hfail. unfold execute_try, with_session.
    rewrite E0, E1, E2. cbn [bind].
    destruct (prefix "select" (lower (strip sql))); cbv iota in E3; now rewrite E3.
  - intros c e E0 E1 E2 E3 E4. apply Hfail. unfold execute_try, with_session.
    rewrite E0, E1, E2. cbn [bind].
    destruct (prefix "select" (lower (strip sql))); cbv iota in E3;
      destruct E3 as [x ->]; cbn [bind]; now rewrite E4.
Qed.

Lemma failing_session_Exception_only : fails_with_Exception_only failing_session.
Proof.
  unfold fails_with_Exception_only, raises_Exception_only. cbn.
  repeat split; try discriminate; try (intros e [= <-]; reflexivity); auto.
Qed.

Lemma good_session_Exception_only : fails_with_Exception_only good_session.
Proof.
  unfold fails_with_Exception_only, raises_Exception_only. cbn.
  repeat split; try discriminate; auto;
    match goal with H : Return good_cursor = Return _ |- _ => injection H as <- end;
    cbn; discriminate.
Qed.

Lemma execute_never_raises_witness :
  execute good_session "SELECT * FROM users" None
  = Return {| success := true; result := Some (Rows [[VInt 1]]); error := None |} /\
  execute good_session "insert into users values (1)" None
  = Return {| success := true; result := Some (Rowcount 1); error := None |} /\
  execute failing_session "select * from non_existing_table" None
  = Return {| success := false; result := None; error := Some "no such table"%string |}.
Proof.
  split; [|split].
  - apply (proj1 (proj1 (proj2 (execute_never_raises good_session "SELECT * FROM users"
                                  None good_session_Exception_only))
                    good_cursor eq_refl eq_refl eq_refl eq_refl)
             [[VInt 1]] eq_refl eq_refl).
  - apply (proj2 (proj1 (proj2 (execute_never_raises good_session
                                  "insert into users values (1)"
                                  None good_session_Exception_only))
                    good_cursor eq_refl eq_refl eq_refl eq_refl)
             1%Z eq_refl eq_refl).
  - apply (proj1 (proj2 (proj2 (proj2 (proj2 (proj2
             (execute_never_raises failing_session "select * from non_existing_table"
                None failing_session_Exception_only))))))
             (DatabaseError "no such table") eq_refl eq_refl).
Defined.

(** ** The filter compiler *)

Lemma bind_Return_r {A : Type} (m : outcome A) : (x <- m ;; Return x) = m.
Proof. destruct m; reflexivity. Qed.

Lemma bind_assoc {A B C : Type} (m : outcome A) (f : A -> outcome B) (g : B -> outcome C) :
  (y <- (x <- m ;; f x) ;; g y) = (x <- m ;; y <- f x ;; g y).
Proof. destruct m; reflexivity. Qed.

Lemma loop_app (build : value -> outcome clause) (pre post : mapping) :
  loop build (pre ++ post)
  = (a <- loop build pre ;; b <- loop build post ;; Return (a ++ b)).
Proof.
  induction pre as [|[key v] pre IH]; cbn [app loop bind].
  - now rewrite bind_Return_r.
  - rewrite IH. destruct (item build key v) as [this|e]; cbn [bind]; [|reflexivity].
    destruct (loop build pre) as [a|e]; cbn [bind]; [|reflexivity].
    destruct (loop build post) as [b|e]; cbn [bind]; [|reflexivity].
    now rewrite app_assoc.
Qed.

Lemma bare_operator_not_combinator (key : string) :
  str_in (lower key) bare_operators = true ->
  String.eqb (lower key) "$and" = false /\ String.eqb (lower key) "$or" = false.
Proof.
  unfold str_in, bare_operators. cbn [existsb].
  rewrite !orb_true_iff.
  intros H.
  repeat (destruct H as [H|H]);
    try (apply String.eqb_eq in H; rewrite H; split; reflexivity).
  discriminate.
Qed.

Lemma item_bare_operator (build : value -> outcome clause) (key : string) (v : value) :
  str_in (lower key) bare_operators = true ->
  item build key v = Raise (bare_operator_error key).
Proof.
  intros H. destruct (bare_operator_not_combinator key H) as [Ha Ho].
  unfold item. now rewrite Ha, Ho, H.
Qed.

Lemma loop_bare_operator (build : value -> outcome clause)
      (pre : mapping) (key : string) (v : value) (post : mapping) :
  str_in (lower key) bare_operators = true ->
  loop build (pre ++ (key, v) :: post)
  = (_ <- loop build pre ;; Raise (bare_operator_error key)).
Proof.
  intros H. rewrite loop_app. cbn [loop]. rewrite (item_bare_operator _ _ _ H).
  reflexivity.
Qed.

(** C5: a filter with a bare operator key at its top level never
    compiles: compilation raises, and the exception is the [ValueError]
    naming that key as soon as the keys before it compile.  [{"$gt": 5}]
    raises it, while [{"$and": [{"a": 1}, {"b": {"$gt": 5}}]}] compiles to
    a conjunction which a row satisfies exactly when [$.a = 1] and
    [$.b > 5] both hold. *)
Theorem bare_operator_rejected :
  (forall pre key v post,
      str_in (lower key) bare_operators = true ->
      raises (_build_filter_clause (Some (pre ++ (key, v) :: post))) /\
      (forall cs, filter_clauses pre = Return cs ->
         _build_filter_clause (Some (pre ++ (key, v) :: post))
         = Raise (bare_operator_error key))) /\
  _build_filter_clause (Some [("$gt"%string, VInt 5)])
  = Raise (ValueError
             "Got unexpected filter expression: <class 'filter'>. Operator $gt must be followed by a meta key. ") /\
  _build_filter_clause
    (Some [("$and"%string,
            VList [VDict [("a"%string, VInt 1)];
                   VDict [("b"%string, VDict [("$gt"%string, VInt 5)])]])])
  = Return (CAnd [CTrue;
                  CAnd [CAnd [CTrue; CJson OpEq "$.a" (VInt 1)];
                        CAnd [CTrue; CJson OpGt "$.b" (VInt 5)]]]) /\
  (forall jh r,
      holds jh (CAnd [CTrue;
                      CAnd [CAnd [CTrue; CJson OpEq "$.a" (VInt 1)];
                            CAnd [CTrue; CJson OpGt "$.b" (VInt 5)]]]) r
      = jh OpEq "$.a"%string (VInt 1) (meta r) && jh OpGt "$.b"%string (VInt 5) (meta r)).
Proof.
  split; [|split; [|split]].
  - intros pre key v post H.
    assert (E : _build_filter_clause (Some (pre ++ (key, v) :: post))
                = (_ <- loop compile pre ;; Raise (bare_operator_error key))).
    { cbn [_build_filter_clause compile]. rewrite (loop_bare_operator _ _ _ _ _ H).
      destruct (loop compile pre); reflexivity. }
    split.
    + rewrite E. unfold raises. destruct (loop compile pre) as [a|e]; cbn [bind]; eauto.
    + intros cs Hcs. rewrite E. unfold filter_clauses in Hcs. now rewrite Hcs.
  - reflexivity.
  - reflexivity.
  - intros jh r. cbn. now rewrite !andb_true_r.
Qed.

Lemma bare_operator_rejected_witness :
  raises (_build_filter_clause
            (Some ([("a"%string, VInt 1)] ++ ("$GT"%string, VInt 5) :: []))).
Proof.
  apply (proj1 (proj1 bare_operator_rejected [("a"%string, VInt 1)] "$GT"%string
                  (VInt 5) [] eq_refl)).
Defined.


Lemma conditions_all (build : value -> outcome clause) (conds : list value)
      (xs : list clause) :
  Forall2 (fun c x => build c = Return x) (List.filter is_mapping conds) xs ->
  conditions build conds = Return xs.
Proof.
  revert xs. induction conds as [|c conds IH]; intros xs H.
  - inversion H. reflexivity.
  - destruct c; cbn [List.filter is_mapping conditions] in *; try (now apply IH).
    inversion H as [|c x cs xs' Hc Hrest]; subst.
    now rewrite Hc, (IH xs' Hrest).
Qed.







(** ** Score tables *)

Section ScoreTables.

Implicit Types (d : dict) (t x : string) (s : R).

Lemma contains_keys d t : contains d t = str_in t (map fst d).
Proof.
  unfold str_in. induction d as [|[t' v] d IH]; [reflexivity|].
  cbn [contains map fst existsb]. now rewrite IH, String.eqb_sym.
Qed.

Lemma keys_iadd d t s : map fst (iadd d t s) = map fst d.
Proof.
  induction d as [|[t' v] d IH]; [reflexivity|].
  cbn [iadd]. destruct (String.eqb t' t); cbn [map fst]; [reflexivity|now rewrite IH].
Qed.

Lemma keys_accumulate d t s :
  map fst (accumulate d t s)
  = if str_in t (map fst d) then map fst d else map fst d ++ [t].
Proof.
  unfold accumulate. rewrite contains_keys.
  destruct (str_in t (map fst d)).
  - apply keys_iadd.
  - now rewrite map_app.
Qed.

Lemma keys_accumulate_all (contribution : Z -> R) (l : list string) (start : Z) d :
  map fst (accumulate_all contribution (enumerate l start) d)
  = first_seen_from (map fst d) l.
Proof.
  revert start d. induction l as [|y l IH]; intros start d; [reflexivity|].
  cbn [enumerate accumulate_all first_seen_from].
  now rewrite IH, keys_accumulate.
Qed.

Lemma str_in_In x (l : list string) : str_in x l = true <-> In x l.
Proof.
  unfold str_in. rewrite existsb_exists. split.
  - intros [y [Hy E]]. apply String.eqb_eq in E. now subst.
  - intros H. exists x. split; [assumption | apply String.eqb_refl].
Qed.

Lemma NoDup_first_seen_from (seen l : list string) :
  NoDup seen -> NoDup (first_seen_from seen l).
Proof.
  revert seen. induction l as [|y l IH]; intros seen Hs; [assumption|].
  cbn [first_seen_from]. apply IH.
  destruct (str_in y seen) eqn:E; [assumption|].
  apply NoDup_app; [assumption | repeat constructor; intros [] |].
  intros z Hz [<-|[]]. apply str_in_In in Hz. congruence.
Qed.

Lemma first_seen_from_app (seen l1 l2 : list string) :
  first_seen_from seen (l1 ++ l2) = first_seen_from (first_seen_from seen l1) l2.
Proof.
  revert seen. induction l1 as [|y l1 IH]; intros seen; [reflexivity|].
  cbn [app first_seen_from]. apply IH.
Qed.

Lemma In_first_seen_from (seen l : list string) x :
  In x (first_seen_from seen l) <-> In x seen \/ In x l.
Proof.
  revert seen. induction l as [|y l IH]; intros seen; cbn [first_seen_from In].
  - tauto.
  - rewrite IH. destruct (str_in y seen) eqn:E.
    + apply str_in_In in E. split; [tauto|].
      intros [H|[<-|H]]; tauto.
    + rewrite in_app_iff. cbn [In]. tauto.
Qed.

End ScoreTables.

(** ** The stable descending sort *)

Section Sorting.

Implicit Types (x y : string * R) (l : list (string * R)).


Lemma insert_desc_perm x l : Permutation (insert_desc x l) (x :: l).
Proof.
  induction l as [|y l IH]; cbn [insert_desc]; [reflexivity|].
  destruct (Rlt_dec (snd x) (snd y)); [|reflexivity].
  rewrite IH. apply perm_swap.
Qed.

Lemma sorted_desc_perm l : Permutation (sorted_desc l) l.
Proof.
  induction l as [|x l IH]; cbn [sorted_desc]; [reflexivity|].
  rewrite insert_desc_perm. now constructor.
Qed.

End Sorting.

(** ** Slices *)

Lemma slice_to_nonneg {A : Type} (l : list A) (k : Z) :
  (0 <= k)%Z -> slice_to l k = firstn (Z.to_nat k) l.
Proof.
  intros Hk. unfold slice_to.
  destruct (Z.ltb_spec k 0); [lia|reflexivity].
Qed.

Lemma slice_to_firstn {A : Type} (l : list A) (k : Z) :
  exists n, slice_to l k = firstn n l.
Proof. unfold slice_to. destruct (k <? 0)%Z; eauto. Qed.

Lemma top_k_items (ranking : list (string * R)) (k : Z) :
  exists n, map snd (top_k ranking k) = firstn n (map fst ranking).
Proof.
  unfold top_k. destruct (slice_to_firstn ranking k) as [n ->].
  exists n. rewrite map_map. cbn [snd]. now rewrite firstn_map.
Qed.

Lemma NoDup_firstn {A : Type} (n : nat) (l : list A) : NoDup l -> NoDup (firstn n l).
Proof.
  intros H. rewrite <- (firstn_skipn n l) in H. now apply NoDup_app_remove_r in H.
Qed.

Lemma top_k_length (ranking : list (string * R)) (k : Z) :
  (0 <= k)%Z -> (Z.of_nat (List.length (top_k ranking k)) <= k)%Z.
Proof.
  intros Hk. unfold top_k. rewrite length_map, slice_to_nonneg by assumption.
  rewrite length_firstn. lia.
Qed.

(** ** Reciprocal rank fusion *)

Lemma length_enumerate {A : Type} (l : list A) (start : Z) :
  List.length (enumerate l start) = List.length l.
Proof.
  revert start. induction l as [|x l IH]; intros start; cbn [enumerate List.length];
    [reflexivity | now rewrite IH].
Qed.

Lemma rrf_loop_total (c : Z) (l : list string) (start : Z) (d : dict) :
  (forall r, (start <= r < start + Z.of_nat (List.length l))%Z -> (c + r)%Z <> 0%Z) ->
  rrf_loop c (enumerate l start) d
  = Return (accumulate_all (fun r => 1 / IZR (c + r)) (enumerate l start) d).
Proof.
  revert start d. induction l as [|y l IH]; intros start d H; [reflexivity|].
  cbn [enumerate rrf_loop accumulate_all].
  destruct (Z.eqb_spec (c + start) 0) as [E|_].
  - exfalso. apply (H start); [|exact E]. cbn [List.length]. lia.
  - apply IH. intros r Hr. apply H. cbn [List.length]. lia.
Qed.

Lemma rrf_rerank_table (v f : list string) (k c : Z) :
  (forall r, (1 <= r <= Z.of_nat (Nat.max (List.length v) (List.length f)))%Z ->
             (c + r)%Z <> 0%Z) ->
  rrf_rerank v f k c
  = Return (top_k (sorted_desc
                     (accumulate_all (fun r => 1 / IZR (c + r)) (enumerate f 1)
                        (accumulate_all (fun r => 1 / IZR (c + r)) (enumerate v 1) []))) k).
Proof.
  intros H. unfold rrf_rerank.
  rewrite rrf_loop_total by (intros r Hr; apply H; lia). cbn [bind].
  rewrite rrf_loop_total by (intros r Hr; apply H; lia). reflexivity.
Qed.

(** Deciding the comparisons of a concrete sort. *)
Ltac decide_order :=
  repeat (match goal with
          | |- context [Rlt_dec ?a ?b] =>
              destruct (Rlt_dec a b); [try (exfalso; lra) | try (exfalso; lra)]
          end;
          cbn [insert_desc fst snd]).

Lemma rrf_rerank_docs :
  rrf_rerank ["doc1"; "doc2"]%string ["doc3"; "doc4"]%string 4 60
  = Return [(1 / 61, "doc1"%string); (1 / 61, "doc3"%string);
            (1 / 62, "doc2"%string); (1 / 62, "doc4"%string)].
Proof.
  rewrite rrf_rerank_table by (intros r Hr; lia).
  cbn -[IZR Rdiv Rlt_dec].
  decide_order.
  reflexivity.
Qed.

Lemma rerank_data_rrf_docs :
  rerank_data vector_docs full_text_docs 4 rrf_option
  = Return (Scored [(1 / 61, "doc1"%string); (1 / 61, "doc3"%string);
                    (1 / 62, "doc2"%string); (1 / 62, "doc4"%string)]).
Proof.
  unfold rerank_data. cbn [rerank_type rrf_option get rank_value].
  cbn [String.eqb Ascii.eqb Bool.eqb andb].
  unfold vector_docs, full_text_docs. now rewrite rrf_rerank_docs.
Qed.

(** ** Weighted rank fusion *)

Lemma convert_metric_score_l2 (original_score : R) (metric_type : string) :
  convert_metric_score original_score metric_type = arctan_normalize (- original_score).
Proof. reflexivity. Qed.

Lemma weighted_loop_app (weights : list R) (a b : list (Z * string * string)) (d : dict) :
  weighted_loop weights (a ++ b) d
  = (d' <- weighted_loop weights a d ;; weighted_loop weights b d').
Proof.
  revert d. induction a as [|[[score text] model_type] a IH]; intros d; [reflexivity|].
  cbn [app weighted_loop].
  destruct (if String.eqb model_type "vector" then getitem weights 0 else getitem weights 1)
    as [w|e]; cbn [bind]; [apply IH | reflexivity].
Qed.

Lemma weighted_loop_tagged (weights : list R) (model_type : string) (w : R)
      (l : list string) (start : Z) (d : dict) :
  (if String.eqb model_type "vector" then getitem weights 0 else getitem weights 1)
  = Return w ->
  weighted_loop weights
    (map (fun st => (fst st, snd st, model_type)) (enumerate l start)) d
  = Return (accumulate_all (fun r => arctan_normalize (- IZR r) * w) (enumerate l start) d).
Proof.
  intros Hw. revert start d. induction l as [|y l IH]; intros start d; [reflexivity|].
  cbn [enumerate map fst snd weighted_loop accumulate_all].
  rewrite Hw. cbn [bind]. rewrite convert_metric_score_l2. apply IH.
Qed.

Lemma weighted_rank_table (v f : list string) (k : Z) (w0 w1 : R) :
  weighted_rank v f k [w0; w1]
  = Return (top_k (sorted_desc
                     (accumulate_all (fun r => arctan_normalize (- IZR r) * w1) (enumerate f 1)
                        (accumulate_all (fun r => arctan_normalize (- IZR r) * w0)
                           (enumerate v 1) []))) k).
Proof.
  unfold weighted_rank, tagged. rewrite weighted_loop_app.
  rewrite (weighted_loop_tagged [w0; w1] "vector" w0) by reflexivity. cbn [bind].
  rewrite (weighted_loop_tagged [w0; w1] "full_text" w1) by reflexivity.
  reflexivity.
Qed.

(** ** [rerank_data] *)

Lemma NoDup_keys_accumulate (d : dict) (t : string) (s : R) :
  NoDup (map fst d) -> NoDup (map fst (accumulate d t s)).
Proof.
  intros H. rewrite keys_accumulate.
  destruct (str_in t (map fst d)) eqn:E; [assumption|].
  apply NoDup_app; [assumption | repeat constructor; intros [] |].
  intros z Hz [<-|[]]. apply str_in_In in Hz. congruence.
Qed.

Lemma rrf_loop_NoDup (c : Z) (l : list (Z * string)) (d d' : dict) :
  rrf_loop c l d = Return d' -> NoDup (map fst d) -> NoDup (map fst d').
Proof.
  revert d. induction l as [|[score text] l IH]; intros d; cbn [rrf_loop].
  - now intros [= <-].
  - destruct (c + score =? 0)%Z; [discriminate|].
    intros H Hd. apply (IH _ H). now apply NoDup_keys_accumulate.
Qed.

Lemma weighted_loop_NoDup (weights : list R) (l : list (Z * string * string)) (d d' : dict) :
  weighted_loop weights l d = Return d' -> NoDup (map fst d) -> NoDup (map fst d').
Proof.
  revert d. induction l as [|[[score text] model_type] l IH]; intros d; cbn [weighted_loop].
  - now intros [= <-].
  - destruct (if String.eqb model_type "vector" then getitem weights 0 else getitem weights 1)
      as [w|e]; cbn [bind]; [|discriminate].
    intros H Hd. apply (IH _ H). now apply NoDup_keys_accumulate.
Qed.

Lemma top_k_NoDup (d : dict) (k : Z) :
  NoDup (map fst d) -> NoDup (map snd (top_k (sorted_desc d) k)).
Proof.
  intros H. destruct (top_k_items (sorted_desc d) k) as [n ->].
  apply NoDup_firstn.
  eapply Permutation_NoDup; [|exact H].
  symmetry. apply Permutation_map, sorted_desc_perm.
Qed.

Lemma rrf_rerank_result (v f : list string) (k c : Z) (out : list (R * string)) :
  rrf_rerank v f k c = Return out ->
  NoDup (map snd out) /\ ((0 <= k)%Z -> (Z.of_nat (List.length out) <= k)%Z).
Proof.
  unfold rrf_rerank.
  destruct (rrf_loop c (enumerate v 1) []) as [d1|e] eqn:E1; cbn [bind]; [|discriminate].
  destruct (rrf_loop c (enumerate f 1) d1) as [d2|e] eqn:E2; cbn [bind]; [|discriminate].
  intros [= <-]. split.
  - apply top_k_NoDup. apply (rrf_loop_NoDup _ _ _ _ E2), (rrf_loop_NoDup _ _ _ _ E1).
    constructor.
  - apply top_k_length.
Qed.

Lemma weighted_rank_result (v f : list string) (k : Z) (weights : list R)
      (out : list (R * string)) :
  weighted_rank v f k weights = Return out ->
  NoDup (map snd out) /\ ((0 <= k)%Z -> (Z.of_nat (List.length out) <= k)%Z).
Proof.
  unfold weighted_rank.
  destruct (weighted_loop weights _ []) as [d|e] eqn:E; cbn [bind]; [|discriminate].
  intros [= <-]. split.
  - apply top_k_NoDup. apply (weighted_loop_NoDup _ _ _ _ E). constructor.
  - apply top_k_length.
Qed.

(** C4 as stated fails for the fallback: with a rerank type other than
    RRF and WeightedRank, two distinct items come back for [k = 1]. *)
Lemma rerank_data_fallback_exceeds_k :
  rerank_data vector_docs [] 1 other_option = Return (Items ["doc1"; "doc2"]%string) /\
  ~ (Z.of_nat (result_length (Items ["doc1"; "doc2"]%string)) <= 1)%Z.
Proof. split; [reflexivity | cbn; lia]. Qed.

(** C4 (amended): whatever the rerank type, a list returned by
    [rerank_data] holds each item at most once.  For RRF and WeightedRank
    with [k >= 0] its length is at most [k].  For any other type the
    result is the collection of distinct items of both lists, whatever
    [k] is. *)
Theorem rerank_data_result (v f : list string) (k : Z) (option : rerank_option)
        (res : rerank_result) :
  rerank_data v f k option = Return res ->
  NoDup (result_items res) /\
  (rerank_type option = Some "RRF"%string \/
   rerank_type option = Some "WeightedRank"%string ->
   (0 <= k)%Z -> (Z.of_nat (result_length res) <= k)%Z) /\
  (rerank_type option <> Some "RRF"%string ->
   rerank_type option <> Some "WeightedRank"%string ->
   res = Items (list_of_set (v ++ f)) /\
   forall x, In x (result_items res) <-> In x (v ++ f)).
Proof.
  unfold rerank_data.
  destruct (rerank_type option) as [ty|]; [|discriminate].
  destruct (String.eqb_spec ty "RRF") as [->|Hrrf].
  - destruct (rrf_rerank v f k _) as [out|e] eqn:E; cbn [bind]; [|discriminate].
    intros [= <-]. destruct (rrf_rerank_result _ _ _ _ _ E) as [Hnd Hlen].
    split; [exact Hnd|]. split; [intros _; exact Hlen|].
    intros H. now elim H.
  - destruct (String.eqb_spec ty "WeightedRank") as [->|Hw].
    + destruct (weighted_rank v f k _) as [out|e] eqn:E; cbn [bind]; [|discriminate].
      intros [= <-]. destruct (weighted_rank_result _ _ _ _ _ E) as [Hnd Hlen].
      split; [exact Hnd|]. split; [intros _; exact Hlen|].
      intros _ H. now elim H.
    + intros [= <-]. cbn [result_items]. unfold list_of_set.
      split; [apply NoDup_nodup|]. split.
      * intros [[= H]|[= H]]; congruence.
      * intros _ _. split; [reflexivity|]. intros x. apply nodup_In.
Qed.

Lemma rerank_data_result_witness :
  NoDup ["doc1"; "doc3"; "doc2"; "doc4"]%string /\
  (Z.of_nat 4 <= 4)%Z.
Proof.
  destruct (rerank_data_result vector_docs full_text_docs 4%Z rrf_option _
              rerank_data_rrf_docs) as (Hnd & Hlen & _).
  split; [exact Hnd | apply Hlen; [left; reflexivity | lia]].
Defined.

(** ** More on the filter compiler *)

Lemma build_Some (filters : mapping) :
  _build_filter_clause (Some filters)
  = (cs <- filter_clauses filters ;; Return (CAnd (CTrue :: cs))).
Proof. reflexivity. Qed.

Lemma filter_clauses_app (pre post : mapping) :
  filter_clauses (pre ++ post)
  = (a <- filter_clauses pre ;; b <- filter_clauses post ;; Return (a ++ b)).
Proof. apply loop_app. Qed.

(** X1: sibling keys of one mapping are conjoined.  The filter made of
    the keys of [pre] followed by those of [post] compiles exactly when
    both parts compile, and a row satisfies it exactly when it satisfies
    both. *)
Theorem siblings_are_conjoined (pre post : mapping) :
  (returns (_build_filter_clause (Some (pre ++ post)))
   <-> returns (_build_filter_clause (Some pre))
       /\ returns (_build_filter_clause (Some post))) /\
  (forall c1 c2,
      _build_filter_clause (Some pre) = Return c1 ->
      _build_filter_clause (Some post) = Return c2 ->
      exists c,
        _build_filter_clause (Some (pre ++ post)) = Return c /\
        forall jh r, holds jh c r = holds jh c1 r && holds jh c2 r).
Proof.
  rewrite !build_Some, filter_clauses_app. unfold returns.
  destruct (filter_clauses pre) as [a|e1], (filter_clauses post) as [b|e2]; cbn [bind].
  - split; [split; eauto|].
    intros c1 c2 [= <-] [= <-]. eexists. split; [reflexivity|].
    intros jh r. cbn [holds forallb]. now rewrite forallb_app.
  - split; [|intros c1 c2 _ [=]].
    split; [intros [c [=]] | intros [_ [c [=]]]].
  - split; [|intros c1 c2 [=]].
    split; [intros [c [=]] | intros [[c [=]] _]].
  - split; [|intros c1 c2 [=]].
    split; [intros [c [=]] | intros [[c [=]] _]].
Qed.

Lemma siblings_are_conjoined_witness :
  exists c,
    _build_filter_clause (Some ([("a"%string, VInt 1)] ++ [("b"%string, VInt 2)]))
    = Return c /\
    forall jh r,
      holds jh c r
      = holds jh (CAnd [CTrue; CJson OpEq "$.a" (VInt 1)]) r
        && holds jh (CAnd [CTrue; CJson OpEq "$.b" (VInt 2)]) r.
Proof.
  apply (proj2 (siblings_are_conjoined [("a"%string, VInt 1)] [("b"%string, VInt 2)]));
    reflexivity.
Defined.

Lemma str_in_app (x : string) (l1 l2 : list string) :
  str_in x (l1 ++ l2) = str_in x l1 || str_in x l2.
Proof. unfold str_in. apply existsb_app. Qed.

Lemma str_in_false (x : string) (l : list string) :
  (forall y, In y l -> y <> x) -> str_in x l = false.
Proof.
  intros H. destruct (str_in x l) eqn:E; [|reflexivity].
  apply str_in_In in E. now elim (H x E).
Qed.

Lemma str_in_lowered_false (op : string) (keys : list string) :
  (forall k, In k keys -> lower k <> op) -> str_in op (map lower keys) = false.
Proof.
  intros H. apply str_in_false. intros y Hy.
  apply in_map_iff in Hy as [k [<- Hk]]. now apply H.
Qed.

Lemma subscript_absent (items : mapping) (k : string) :
  str_in k (map fst items) = false -> subscript items k = Raise (KeyError k).
Proof.
  unfold str_in.
  induction items as [|[k' v] items IH]; cbn [map fst existsb subscript]; [reflexivity|].
  intros H. apply orb_false_iff in H as [Hk Hrest].
  rewrite (IH Hrest). rewrite String.eqb_sym in Hk. now rewrite Hk.
Qed.

Lemma subscript_last (before : mapping) (k : string) (v : value) (after : mapping) :
  str_in k (map fst after) = false ->
  subscript (before ++ (k, v) :: after) k = Return v.
Proof.
  intros H. induction before as [|[k' v'] before IH]; cbn [app subscript].
  - now rewrite (subscript_absent after k H), String.eqb_refl.
  - now rewrite IH.
Qed.

Lemma has_operator_found (nested : mapping) :
  has_operator nested = true ->
  exists op, In op bare_operators /\ str_in op (map lower (map fst nested)) = true.
Proof.
  unfold has_operator. intros H. apply existsb_exists in H as [k [Hk Hop]].
  exists (lower k). split; [now apply str_in_In|].
  apply str_in_In. now apply in_map.
Qed.

Lemma subscript_snoc (items : mapping) (k' : string) (v : value) (k : string) :
  subscript (items ++ [(k', v)]) k
  = if String.eqb k' k then Return v else subscript items k.
Proof.
  induction items as [|[a b] items IH]; cbn [app subscript].
  - reflexivity.
  - rewrite IH. destruct (String.eqb k' k); reflexivity.
Qed.

Lemma operand_snoc (nested : mapping) (k : string) (v : value) (op : string) :
  operand (nested ++ [(k, v)]) op
  = if String.eqb (lower k) op then Some v else operand nested op.
Proof.
  unfold operand. rewrite rev_app_distr. cbn [rev app List.filter fst snd].
  destruct (String.eqb (lower k) op); reflexivity.
Qed.

(** The operand the vocabulary speaks of is the one the code looks up. *)
Lemma operand_subscript (nested : mapping) (op : string) :
  match operand nested op with
  | Some v =>
      str_in op (map lower (map fst nested)) = true /\
      subscript (map (fun kv => (lower (fst kv), snd kv)) nested) op = Return v
  | None => str_in op (map lower (map fst nested)) = false
  end.
Proof.
  induction nested as [|[k v] nested IH] using rev_ind; [reflexivity|].
  rewrite operand_snoc, !map_app, str_in_app. cbn [map fst snd].
  rewrite subscript_snoc.
  assert (E : str_in op [lower k] = String.eqb (lower k) op).
  { unfold str_in. cbn [existsb]. now rewrite orb_false_r, String.eqb_sym. }
  rewrite E. destruct (String.eqb (lower k) op).
  - split; [apply orb_true_r | reflexivity].
  - rewrite orb_false_r. exact IH.
Qed.

Lemma create_filter_clause_chosen (key : string) (nested : mapping) :
  _create_filter_clause key nested
  = match chosen nested precedence with
    | Some (c, v) => comparison c (json_path key) v
    | None => Return None
    end.
Proof.
  unfold _create_filter_clause, precedence. cbn [chosen].
  repeat match goal with
         | |- context [str_in ?op (map lower (map fst nested))] =>
             let H := fresh "H" in
             pose proof (operand_subscript nested op) as H;
             destruct (operand nested op) as [v|];
             [ destruct H as [-> ->]; reflexivity | rewrite H ]
         end.
  reflexivity.
Qed.

Lemma has_operator_chosen (nested : mapping) :
  has_operator nested = true -> exists c v, chosen nested precedence = Some (c, v).
Proof.
  intros Hop. destruct (has_operator_found nested Hop) as [op [Hin Hpresent]].
  assert (K : forall o, str_in o (map lower (map fst nested)) = true ->
                        exists v, operand nested o = Some v).
  { intros o Ho. pose proof (operand_subscript nested o) as H.
    destruct (operand nested o) as [v|]; [eauto | congruence]. }
  unfold precedence. cbn [chosen].
  cbn [bare_operators In] in Hin.
  repeat match goal with
         | |- exists _ _, match operand nested ?o with _ => _ end = _ =>
             let E := fresh "E" in
             destruct (operand nested o) as [v|] eqn:E; [eauto|]
         end.
  exfalso.
  repeat (destruct Hin as [<-|Hin]; [destruct (K _ Hpresent) as [v Hv]; congruence|]).
  exact Hin.
Qed.

(** X2: a nested mapping yields at most one comparison, chosen by a fixed
    precedence and not by the order of its keys: the first operator, in
    the order [$in], [$nin], [$gt], [$gte], [$lt], [$lte], [$ne], [$eq],
    of which the mapping holds a spelling, applied to the last value held
    under such a spelling.  Whenever the mapping holds an operator the
    outcome is that single comparison on the field, or the
    [ArgumentError] SQLAlchemy raises for its operand; and a [$gt] entry
    decides it whatever else stands beside it, short of [$in] and
    [$nin]: a [$lt], [$lte], [$gte], [$ne] or [$eq] in the same mapping
    is dropped. *)
Theorem one_operator_per_field (key : string) :
  (forall nested,
      _create_filter_clause key nested
      = match chosen nested precedence with
        | Some (c, v) => comparison c (json_path key) v
        | None => Return None
        end) /\
  (forall nested,
      has_operator nested = true ->
      exists op v,
        (operand_ok op v = true /\
         _create_filter_clause key nested = Return (Some (CJson op (json_path key) v)))
        \/ (operand_ok op v = false /\
            _create_filter_clause key nested = Raise (operand_error op))) /\
  (forall before k0 v after,
      lower k0 = "$gt"%string ->
      (forall k, In k (map fst (before ++ after)) ->
                 lower k <> "$in"%string /\ lower k <> "$nin"%string) ->
      (forall k, In k (map fst after) -> lower k <> "$gt"%string) ->
      (operand_ok OpGt v = true ->
       _create_filter_clause key (before ++ (k0, v) :: after)
       = Return (Some (CJson OpGt (json_path key) v))) /\
      (operand_ok OpGt v = false ->
       _create_filter_clause key (before ++ (k0, v) :: after)
       = Raise (operand_error OpGt))).
Proof.
  split; [exact (create_filter_clause_chosen key)|]. split.
  - intros nested Hop. rewrite create_filter_clause_chosen.
    destruct (has_operator_chosen nested Hop) as [op [v ->]].
    exists op, v. unfold comparison.
    destruct (operand_ok op v); [left | right]; split; reflexivity.
  - intros before k0 v after Hk0 Hstrong Hlast.
    assert (E : _create_filter_clause key (before ++ (k0, v) :: after)
                = comparison OpGt (json_path key) v).
    { unfold _create_filter_clause.
      rewrite !map_app. cbn [map fst snd]. rewrite Hk0.
      assert (Hno : forall op, (forall k, In k (map fst (before ++ after)) -> lower k <> op) ->
                               op <> "$gt"%string ->
                               str_in op (map lower (map fst before) ++
                                          "$gt"%string :: map lower (map fst after)) = false).
      { intros op H Hne. rewrite str_in_app. unfold str_in at 2. cbn [existsb].
        rewrite map_app in H.
        fold (str_in op (map lower (map fst after))).
        rewrite !str_in_lowered_false
          by (intros k Hk; apply H; apply in_or_app; auto).
        destruct (String.eqb_spec op "$gt"); [contradiction|reflexivity]. }
      rewrite (Hno "$in"%string) by (try discriminate; intros k Hk; now apply Hstrong).
      rewrite (Hno "$nin"%string) by (try discriminate; intros k Hk; now apply Hstrong).
      replace (str_in "$gt" (map lower (map fst before) ++
                             "$gt"%string :: map lower (map fst after))) with true
        by (rewrite str_in_app; unfold str_in at 2; cbn [existsb];
            now rewrite String.eqb_refl, orb_true_r).
      rewrite subscript_last; [reflexivity|].
      rewrite map_map. cbn [fst]. rewrite <- map_map.
      now apply str_in_lowered_false. }
    rewrite E. unfold comparison. split; intros ->; reflexivity.
Qed.

Lemma one_operator_per_field_witness :
  _create_filter_clause "price"
    ([("$lt"%string, VInt 5)] ++ ("$GT"%string, VInt 1) :: [("$lte"%string, VInt 9)])
  = Return (Some (CJson OpGt "$.price" (VInt 1))) /\
  _create_filter_clause "price"
    ([("$lt"%string, VInt 5)] ++ ("$GT"%string, VNone) :: [("$lte"%string, VInt 9)])
  = Raise (operand_error OpGt) /\
  exists op v,
    (operand_ok op v = true /\
     _create_filter_clause "price" [("$IN"%string, VStr "abc")]
     = Return (Some (CJson op (json_path "price") v)))
    \/ (operand_ok op v = false /\
        _create_filter_clause "price" [("$IN"%string, VStr "abc")]
        = Raise (operand_error op)).
Proof.
  split; [|split].
  - apply (proj2 (proj2 (one_operator_per_field "price"))
             [("$lt"%string, VInt 5)] "$GT"%string (VInt 1) [("$lte"%string, VInt 9)]).
    + reflexivity.
    + cbn. intros k [<-|[<-|[]]]; split; discriminate.
    + cbn. intros k [<-|[]]; discriminate.
    + reflexivity.
  - apply (proj2 (proj2 (one_operator_per_field "price"))
             [("$lt"%string, VInt 5)] "$GT"%string VNone [("$lte"%string, VInt 9)]).
    + reflexivity.
    + cbn. intros k [<-|[<-|[]]]; split; discriminate.
    + cbn. intros k [<-|[]]; discriminate.
    + reflexivity.
  - apply (proj1 (proj2 (one_operator_per_field "price")) [("$IN"%string, VStr "abc")]).
    reflexivity.
Defined.

Lemma ascii_lower_idempotent (c : ascii) : ascii_lower (ascii_lower c) = ascii_lower c.
Proof. destruct c as [[] [] [] [] [] [] [] []]; reflexivity. Qed.

Lemma lower_idempotent (s : string) : lower (lower s) = lower s.
Proof.
  induction s as [|c s IH]; cbn [lower]; [reflexivity|].
  now rewrite ascii_lower_idempotent, IH.
Qed.

Lemma combinator_cases (key : string) :
  combinator key = true <-> lower key = "$and"%string \/ lower key = "$or"%string.
Proof.
  unfold combinator. rewrite orb_true_iff, !String.eqb_eq. reflexivity.
Qed.

Lemma item_lower_combinator (build : value -> outcome clause) (key : string) (v : value) :
  combinator key = true -> item build key v = item build (lower key) v.
Proof.
  intros Hc. apply combinator_cases in Hc.
  unfold item. rewrite lower_idempotent.
  destruct Hc as [-> | ->]; reflexivity.
Qed.

(** X3: operator and combinator keys are matched without regard to
    letter case: a nested mapping compiles to the same comparison when
    its keys are lower-cased, and a filter compiles to the same predicate
    when a combinator key is. *)
Theorem keys_match_in_any_case :
  (forall key nested,
      _create_filter_clause key nested
      = _create_filter_clause key (map (fun kv => (lower (fst kv), snd kv)) nested)) /\
  (forall pre key v post,
      combinator key = true ->
      _build_filter_clause (Some (pre ++ (key, v) :: post))
      = _build_filter_clause (Some (pre ++ (lower key, v) :: post))).
Proof.
  split.
  - intros key nested. unfold _create_filter_clause.
    rewrite !map_map. cbn [fst snd].
    assert (E1 : map (fun x : string * value => lower (lower (fst x))) nested
                 = map (fun x => lower (fst x)) nested)
      by (apply map_ext; intros; apply lower_idempotent).
    assert (E2 : map (fun x : string * value => (lower (lower (fst x)), snd x)) nested
                 = map (fun kv => (lower (fst kv), snd kv)) nested)
      by (apply map_ext; intros; now rewrite lower_idempotent).
    now rewrite E1, E2.
  - intros pre key v post Hc.
    rewrite !build_Some, !filter_clauses_app. unfold filter_clauses.
    cbn [loop]. now rewrite (item_lower_combinator compile key v Hc).
Qed.

Lemma keys_match_in_any_case_witness :
  _build_filter_clause (Some ([] ++ ("$Or"%string, VList []) :: []))
  = _build_filter_clause (Some ([] ++ (lower "$Or", VList []) :: [])).
Proof.
  apply (proj2 keys_match_in_any_case [] "$Or"%string (VList []) []).
  reflexivity.
Defined.

Lemma item_not_iterable (build : value -> outcome clause) (key : string) (v : value) :
  combinator key = true -> iterable v = false ->
  item build key v = Raise (not_iterable v).
Proof.
  intros Hc Hv. apply combinator_cases in Hc.
  unfold item. destruct Hc as [-> | ->]; destruct v; try discriminate; reflexivity.
Qed.

(** X4: what a combinator makes of a value that is not a list.  A value
    that cannot be iterated ([None], a boolean, a number) raises
    [TypeError] as soon as the keys before it compile.  A mapping or a
    string is iterated without yielding any sub-filter: the conditions
    written inside the mapping are dropped and the combinator constrains
    nothing. *)
Theorem combinator_needs_a_list (key : string) :
  combinator key = true ->
  (forall pre v post cs,
      iterable v = false ->
      filter_clauses pre = Return cs ->
      _build_filter_clause (Some (pre ++ (key, v) :: post)) = Raise (not_iterable v)) /\
  (forall v,
      iterable v = true -> (forall conds, v <> VList conds) ->
      exists c,
        _build_filter_clause (Some [(key, v)]) = Return c /\
        forall jh r, holds jh c r = true).
Proof.
  intros Hc. split.
  - intros pre v post cs Hv Hpre.
    rewrite build_Some, filter_clauses_app, Hpre. unfold filter_clauses.
    cbn [bind loop]. now rewrite (item_not_iterable compile key v Hc Hv).
  - intros v Hv Hlist. apply combinator_cases in Hc.
    rewrite build_Some. unfold filter_clauses. cbn [loop]. unfold item.
    destruct Hc as [-> | ->]; destruct v; try discriminate;
      try (now elim (Hlist items));
      (eexists; split; [reflexivity | intros jh r; reflexivity]).
Qed.

Lemma combinator_needs_a_list_witness :
  (_build_filter_clause (Some ([("a"%string, VInt 1)] ++ ("$and"%string, VInt 5) :: []))
   = Raise (not_iterable (VInt 5))) /\
  exists c,
    _build_filter_clause (Some [("$and"%string, VDict [("a"%string, VInt 1)])]) = Return c /\
    forall jh r, holds jh c r = true.
Proof.
  destruct (combinator_needs_a_list "$and" eq_refl) as [Hraise Hdrop]. split.
  - apply (Hraise [("a"%string, VInt 1)] (VInt 5) [] [CJson OpEq "$.a" (VInt 1)]);
      reflexivity.
  - apply (Hdrop (VDict [("a"%string, VInt 1)])); [reflexivity | discriminate].
Defined.

(** *** Which filters compile *)

Lemma value_nested_ind (P : value -> Prop) :
  P VNone ->
  (forall b, P (VBool b)) ->
  (forall n, P (VInt n)) ->
  (forall x, P (VFloat x)) ->
  (forall s, P (VStr s)) ->
  (forall items, Forall P items -> P (VList items)) ->
  (forall items, Forall (fun kv => P (snd kv)) items -> P (VDict items)) ->
  forall v, P v.
Proof.
  intros HNone HBool HInt HFloat HStr HList HDict.
  fix IH 1. intros [| b | n | x | s | items | items].
  - exact HNone.
  - apply HBool.
  - apply HInt.
  - apply HFloat.
  - apply HStr.
  - apply HList. induction items as [|v items IHitems]; constructor;
      [apply IH | exact IHitems].
  - apply HDict. induction items as [|[k v] items IHitems]; constructor;
      [apply IH | exact IHitems].
Qed.

Lemma returns_bind {A B : Type} (m : outcome A) (k : A -> outcome B) :
  returns (x <- m ;; k x) <-> exists a, m = Return a /\ returns (k a).
Proof.
  unfold returns. destruct m as [a|e]; cbn [bind].
  - split; [intros H; eauto | intros [a' [[= <-] H]]; exact H].
  - split; [intros [b [=]] | intros [a [[=] _]]].
Qed.

Lemma returns_Return {A : Type} (a : A) : returns (Return a).
Proof. unfold returns. eauto. Qed.

Lemma not_returns_Raise {A : Type} (e : exn) : ~ returns (@Raise A e).
Proof. intros [a [=]]. Qed.

Lemma conditions_returns (conds : list value) :
  Forall (fun c => returns (compile c) <-> faultless c = true) conds ->
  returns (conditions compile conds)
  <-> forallb (fun c => match c with VDict _ => faultless c | _ => true end) conds = true.
Proof.
  induction 1 as [|c conds Hc _ IH]; cbn [conditions forallb].
  - split; [reflexivity | intros _; apply returns_Return].
  - destruct c; try exact IH.
    rewrite returns_bind, andb_true_iff, <- Hc, <- IH. split.
    + intros [x [Hx Hrest]]. apply returns_bind in Hrest as [xs [Hxs _]].
      split; unfold returns; eauto.
    + intros [[x Hx] [xs Hxs]]. exists x. split; [exact Hx|].
      rewrite Hxs. apply returns_Return.
Qed.

Lemma item_returns (key : string) (v : value) :
  (forall conds, v = VList conds ->
                 Forall (fun c => returns (compile c) <-> faultless c = true) conds) ->
  returns (item compile key v)
  <-> (if combinator key then
         match v with
         | VList conds =>
             forallb (fun c => match c with VDict _ => faultless c | _ => true end) conds
         | other => iterable other
         end
       else
         negb (str_in (lower key) bare_operators)
         && match v with
            | VDict nested => comparable nested
            | _ => true
            end) = true.
Proof.
  intros Hv. unfold item, combinator.
  destruct (String.eqb (lower key) "$and") eqn:Ea; cbn [orb].
  { destruct v; cbn [iterable];
      try (split; [intros H; now apply not_returns_Raise in H | discriminate]);
      try (split; [reflexivity | intros _; apply returns_Return]).
    rewrite <- (conditions_returns items (Hv items eq_refl)), returns_bind.
    split; [intros [x [Hx _]]; unfold returns; eauto
           | intros [x Hx]; exists x; split; [exact Hx | apply returns_Return]]. }
  destruct (String.eqb (lower key) "$or") eqn:Eo.
  { destruct v; cbn [iterable];
      try (split; [intros H; now apply not_returns_Raise in H | discriminate]);
      try (split; [reflexivity | intros _; apply returns_Return]).
    rewrite <- (conditions_returns items (Hv items eq_refl)), returns_bind.
    split; [intros [x [Hx _]]; unfold returns; eauto
           | intros [x Hx]; exists x; split; [exact Hx | apply returns_Return]]. }
  destruct (str_in (lower key) bare_operators); cbn [negb andb].
  { split; [intros H; now apply not_returns_Raise in H | discriminate]. }
  destruct v; try (split; [reflexivity | intros _; apply returns_Return]).
  rewrite create_filter_clause_chosen. unfold comparable.
  destruct (chosen items precedence) as [[c v]|]; cbn [bind];
    [|split; [reflexivity | intros _; apply returns_Return]].
  unfold comparison. destruct (operand_ok c v); cbn [bind].
  - split; [reflexivity | intros _; apply returns_Return].
  - split; [intros H; now apply not_returns_Raise in H | discriminate].
Qed.

Lemma loop_returns (items : mapping) :
  Forall (fun kv => forall conds, snd kv = VList conds ->
            Forall (fun c => returns (compile c) <-> faultless c = true) conds) items ->
  returns (loop compile items)
  <-> forallb
        (fun kv =>
           if combinator (fst kv) then
             match snd kv with
             | VList conds =>
                 forallb (fun c => match c with VDict _ => faultless c | _ => true end) conds
             | other => iterable other
             end
           else
             negb (str_in (lower (fst kv)) bare_operators)
             && match snd kv with
                | VDict nested => comparable nested
                | _ => true
                end)
        items = true.
Proof.
  induction 1 as [|[key v] items Hv _ IH]; cbn [loop forallb fst snd].
  - split; [reflexivity | intros _; apply returns_Return].
  - cbn [snd] in Hv.
    rewrite returns_bind, andb_true_iff, <- IH.
    pose proof (item_returns key v Hv) as Hitem.
    match goal with
    | |- _ <-> ?X = true /\ _ =>
        assert (Hitem' : returns (item compile key v) <-> X = true)
          by (clear - Hitem; destruct v; exact Hitem)
    end.
    rewrite <- Hitem'. split.
    + intros [this [Hthis Hrest]]. apply returns_bind in Hrest as [others [Ho _]].
      split; unfold returns; eauto.
    + intros [[this Hthis] [others Ho]]. exists this. split; [exact Hthis|].
      rewrite Ho. apply returns_Return.
Qed.

Lemma compile_returns (v : value) :
  (forall conds, v = VList conds ->
     Forall (fun c => returns (compile c) <-> faultless c = true) conds) /\
  (returns (compile v) <-> faultless v = true).
Proof.
  induction v as [| b | n | x | s | items IH | items IH] using value_nested_ind;
    try (split; [discriminate|]; cbn [compile faultless];
         split; [intros H; now apply not_returns_Raise in H | discriminate]).
  - split.
    + intros conds [= <-]. eapply Forall_impl; [|exact IH]. now intros c [_ Hc].
    + cbn [compile faultless].
      split; [intros H; now apply not_returns_Raise in H | discriminate].
  - split; [discriminate|].
    cbn [compile faultless]. rewrite returns_bind.
    rewrite <- loop_returns.
    + split; [intros [cs [Hcs _]]; unfold returns; eauto
             | intros [cs Hcs]; exists cs; split; [exact Hcs | apply returns_Return]].
    + eapply Forall_impl; [|exact IH]. now intros kv [Hkv _].
Qed.

(** X5: the filters that compile are exactly the faultless ones.
    Compilation raises if and only if, somewhere among the mappings
    reached through [$and] and [$or] lists, a key is a bare operator, a
    combinator holds a value that cannot be iterated, or a field's nested
    mapping asks for a comparison SQLAlchemy does not build ([$in] or
    [$nin] of something that is not a list or a mapping, an order
    comparison with [None], [True] or [False]). *)
Theorem compiles_iff_faultless (filters : mapping) :
  returns (_build_filter_clause (Some filters)) <-> faultless (VDict filters) = true.
Proof.
  cbn [_build_filter_clause]. apply compile_returns.
Qed.

Lemma compiles_iff_faultless_witness :
  returns (_build_filter_clause
             (Some [("$or"%string,
                     VList [VDict [("a"%string, VInt 1)]; VInt 7;
                            VDict [("b"%string, VDict [("$lt"%string, VInt 2)])]])])) /\
  faultless (VDict [("b"%string, VDict [("$in"%string, VInt 5)])]) = false /\
  ~ returns (_build_filter_clause
               (Some [("b"%string, VDict [("$in"%string, VInt 5)])])).
Proof.
  split; [apply (proj2 (compiles_iff_faultless _)); reflexivity|].
  split; [reflexivity|].
  intros H. apply (proj1 (compiles_iff_faultless _)) in H. discriminate H.
Defined.

(** ** More on [delete] *)




(** ** More on the vector search *)

Lemma distance_strategy_l2 (self : client) : distance_strategy self = l2_distance.
Proof. unfold distance_strategy. destruct (_distance_strategy self) as [[]|]; reflexivity. Qed.

Lemma insert_asc_perm (h : hit) (l : list hit) : Permutation (insert_asc h l) (h :: l).
Proof.
  induction l as [|h' l IH]; cbn [insert_asc]; [reflexivity|].
  destruct (Rlt_dec (distance h') (distance h)); [|reflexivity].
  rewrite IH. apply perm_swap.
Qed.

Lemma order_by_distance_perm (l : list hit) : Permutation (order_by_distance l) l.
Proof.
  induction l as [|h l IH]; cbn [order_by_distance]; [reflexivity|].
  rewrite insert_asc_perm. now constructor.
Qed.

Lemma insert_asc_sorted (h : hit) (l : list hit) :
  StronglySorted (fun a b => distance a <= distance b) l ->
  StronglySorted (fun a b => distance a <= distance b) (insert_asc h l).
Proof.
  induction 1 as [|h' l Hl IH Hh']; cbn [insert_asc].
  - repeat constructor.
  - destruct (Rlt_dec (distance h') (distance h)) as [Hlt|Hge].
    + constructor; [exact IH|].
      rewrite insert_asc_perm. constructor; [lra | exact Hh'].
    + constructor; [now constructor|].
      constructor; [lra|].
      eapply Forall_impl; [|exact Hh']. cbn beta. intros z Hz. lra.
Qed.

Lemma order_by_distance_sorted (l : list hit) :
  StronglySorted (fun a b => distance a <= distance b) (order_by_distance l).
Proof.
  induction l as [|h l IH]; cbn [order_by_distance]; [constructor|].
  now apply insert_asc_sorted.
Qed.

Lemma StronglySorted_firstn {A : Type} (R : A -> A -> Prop) (n : nat) (l : list A) :
  StronglySorted R l -> StronglySorted R (firstn n l).
Proof.
  intros H. revert n. induction H as [|a l Hl IH Ha]; intros [|n]; cbn [firstn];
    try constructor.
  - apply IH.
  - apply Forall_forall. intros x Hx. rewrite Forall_forall in Ha.
    apply Ha. rewrite <- (firstn_skipn n l). apply in_or_app. now left.
Qed.


Lemma In_firstn {A : Type} (n : nat) (l : list A) (a : A) :
  In a (firstn n l) -> In a l.
Proof.
  intros H. rewrite <- (firstn_skipn n l). apply in_or_app. now left.
Qed.

Lemma In_select (jh : cmp -> string -> value -> value -> bool) (table : list row)
      (distance_col : row -> R) (criteria : list criterion) (h : hit) :
  In h (select jh table distance_col criteria)
  <-> exists r, In r table /\
                forallb (satisfies jh (r, distance_col r)) criteria = true /\
                h = {| hit_id := id r; hit_meta := meta r; hit_document := document r;
                       distance := distance_col r |}.
Proof.
  unfold select. rewrite in_map_iff. split.
  - intros [[r d] [<- Hin]]. apply filter_In in Hin as [Hin Hsat].
    apply in_map_iff in Hin as [r' [[= -> <-] Hr]]. eauto.
  - intros [r [Hr [Hsat ->]]]. exists (r, distance_col r). split; [reflexivity|].
    apply filter_In. split; [|exact Hsat]. apply in_map_iff. eauto.
Qed.

Lemma truthy_Some (b : R) : truthy (Some b) = true <-> b <> 0.
Proof.
  unfold truthy. destruct (Req_dec_T b 0); split; congruence.
Qed.

(** The criteria of a vector search, as [_vector_search] builds them. *)
Lemma vector_search_unfold (jh : cmp -> string -> value -> value -> bool) (self : client)
      (table : list row) (q : list R) (k : nat) (flt : option mapping)
      (lb ub : option R) (hits : list hit) :
  _vector_search jh self table q k flt lb ub = Return hits ->
  exists c lower upper,
    _build_filter_clause flt = Return c /\
    (forall b, lb = Some b -> b <> 0 -> lower = DistanceGe b) /\
    (forall b, ub = Some b -> b <> 0 -> upper = DistanceLe b) /\
    hits = firstn k (order_by_distance
                       (select jh table (fun r => l2_distance (embedding r) q)
                               [Where c; lower; upper])).
Proof.
  unfold _vector_search. rewrite distance_strategy_l2.
  destruct (_build_filter_clause flt) as [c|e]; cbn [bind]; [|discriminate].
  cbv zeta. intros [= <-]. eexists c, _, _. split; [reflexivity|]. split; [|split]; [| |reflexivity].
  - intros b -> Hb. apply truthy_Some in Hb. now rewrite Hb.
  - intros b -> Hb. apply truthy_Some in Hb. now rewrite Hb.
Qed.

(** X8: what a vector search returns.  At most [k] hits, in ascending
    order of distance; each is a record of the table, with the Euclidean
    distance of its embedding to the query (whatever strategy the client
    was given), that satisfies the compiled filter and every bound that
    is neither [None] nor zero. *)
Theorem vector_search_sound (jh : cmp -> string -> value -> value -> bool) (self : client)
        (table : list row) (q : list R) (k : nat) (flt : option mapping)
        (lb ub : option R) (hits : list hit) :
  _vector_search jh self table q k flt lb ub = Return hits ->
  (List.length hits <= k)%nat /\
  StronglySorted (fun a b => distance a <= distance b) hits /\
  exists c,
    _build_filter_clause flt = Return c /\
    forall h, In h hits ->
      exists r,
        In r table /\ holds jh c r = true /\
        h = {| hit_id := id r; hit_meta := meta r; hit_document := document r;
               distance := l2_distance (embedding r) q |} /\
        (forall b, lb = Some b -> b <> 0 -> b <= distance h) /\
        (forall b, ub = Some b -> b <> 0 -> distance h <= b).
Proof.
  intros H. destruct (vector_search_unfold _ _ _ _ _ _ _ _ _ H)
    as (c & lower & upper & Hc & Hlo & Hup & ->).
  split; [apply firstn_le_length|].
  split; [apply StronglySorted_firstn, order_by_distance_sorted|].
  exists c. split; [exact Hc|].
  intros h Hh. apply In_firstn in Hh.
  eapply Permutation_in in Hh; [|apply order_by_distance_perm].
  apply In_select in Hh as [r [Hr [Hsat ->]]].
  cbn [forallb satisfies fst snd] in Hsat.
  apply andb_true_iff in Hsat as [Hw Hsat].
  apply andb_true_iff in Hsat as [Hl Hsat].
  apply andb_true_iff in Hsat as [Hu _].
  exists r. split; [exact Hr|]. split; [exact Hw|]. split; [reflexivity|].
  cbn [distance]. split.
  - intros b Hb Hb0. rewrite (Hlo b Hb Hb0) in Hl. cbn [satisfies snd] in Hl.
    destruct (Rle_dec b (l2_distance (embedding r) q)); [assumption|discriminate].
  - intros b Hb Hb0. rewrite (Hup b Hb Hb0) in Hu. cbn [satisfies snd] in Hu.
    destruct (Rle_dec (l2_distance (embedding r) q) b); [assumption|discriminate].
Qed.

Lemma l2_distance_single (a : R) : 0 <= a -> l2_distance [a] [0] = a.
Proof.
  intros Ha. unfold l2_distance. cbn [combine map fold_right fst snd].
  replace ((a - 0) * (a - 0) + 0) with (a * a) by lra.
  now apply sqrt_square.
Qed.

(** Two nearest of the three sample records: "near" at 1, "mid" at 2. *)
Lemma vector_search_three_rows :
  _vector_search reference_json_holds l2_client three_rows [0] 2 None None None
  = Return [{| hit_id := "b"; hit_meta := VDict []; hit_document := "near";
               distance := l2_distance [1] [0] |};
            {| hit_id := "c"; hit_meta := VDict []; hit_document := "mid";
               distance := l2_distance [2] [0] |}].
Proof.
  pose proof (l2_distance_single 1 ltac:(lra)) as H1.
  pose proof (l2_distance_single 2 ltac:(lra)) as H2.
  pose proof (l2_distance_single 3 ltac:(lra)) as H3.
  unfold _vector_search, three_rows, select.
  cbn -[l2_distance Rlt_dec].
  repeat (match goal with
          | |- context [Rlt_dec ?a ?b] =>
              destruct (Rlt_dec a b); [try (exfalso; lra) | try (exfalso; lra)]
          end;
          cbn [insert_asc distance]).
  reflexivity.
Qed.

Lemma vector_search_sound_witness :
  exists hits,
    _vector_search reference_json_holds l2_client three_rows [0] 2 None None None
    = Return hits /\
    (List.length hits <= 2)%nat /\
    StronglySorted (fun a b => distance a <= distance b) hits.
Proof.
  eexists. split; [exact vector_search_three_rows|].
  destruct (vector_search_sound reference_json_holds l2_client three_rows [0] 2 None
              None None _ vector_search_three_rows) as (Hlen & Hsorted & _).
  split; [exact Hlen | exact Hsorted].
Defined.



(** ** More on the compatibility check *)

(** X10: what a successful check leaves behind.  The table name and the
    drop flag are untouched and a requested dimension is kept; unless the
    table is to be dropped, every stored value that is known is then the
    client's, every value that was requested and not contradicted stays,
    and running the check again on the resulting client succeeds and
    changes nothing. *)
Theorem check_success_agrees (self self' : client) (cd : option Z * option string) :
  _check_table_compatibility self cd = Return self' ->
  _table_name self' = _table_name self /\
  _drop_existing_table self' = _drop_existing_table self /\
  (forall n, _vector_dimension self = Some n -> _vector_dimension self' = Some n) /\
  (forall s, _distance_strategy self = Some s -> _distance_strategy self' = Some s) /\
  (_drop_existing_table self = false ->
   (forall d, fst cd = Some d -> _vector_dimension self' = Some d) /\
   (fst cd = None -> _vector_dimension self' = _vector_dimension self) /\
   (forall t, snd cd = Some t ->
              exists s, _distance_strategy self' = Some s /\ strategy_value s = t) /\
   (snd cd = None -> _distance_strategy self' = _distance_strategy self)) /\
  _check_table_compatibility self' cd = Return self'.
Proof.
  destruct self as [name strategy dim drop], cd as [actual_dim actual_tag].
  unfold _check_table_compatibility. cbn [_drop_existing_table fst snd].
  destruct drop.
  { intros [= <-]. cbn. repeat split; auto; discriminate. }
  destruct actual_dim as [d|], dim as [n|];
    cbn [_vector_dimension _distance_strategy set_vector_dimension bind];
    try (destruct (Z.eqb_spec d n) as [->|Hdn]; cbn [negb bind]; [|discriminate]);
    destruct actual_tag as [t|], strategy as [s|];
    cbn [_vector_dimension _distance_strategy set_vector_dimension
         set_distance_strategy bind _table_name _drop_existing_table];
    try (destruct (String.eqb_spec t (strategy_value s)) as [->|Hts];
         cbn [negb]; [|discriminate]);
    try (unfold DistanceStrategy_of;
         destruct (String.eqb_spec t "l2") as [->|Ht]; cbn [bind]; [|discriminate]);
    intros [= <-];
    cbn [_vector_dimension _distance_strategy set_vector_dimension
         set_distance_strategy bind _table_name _drop_existing_table];
    rewrite ?Z.eqb_refl, ?String.eqb_refl; cbn [negb bind strategy_value];
    repeat split; auto; try discriminate;
    try (intros ? [= <-]; eauto);
    try (destruct s; reflexivity).
Qed.

Lemma check_success_agrees_witness :
  let self := {| _table_name := "docs"; _distance_strategy := None;
                 _vector_dimension := None; _drop_existing_table := false |} in
  let self' := {| _table_name := "docs"; _distance_strategy := Some L2;
                  _vector_dimension := Some 4%Z; _drop_existing_table := false |} in
  _vector_dimension self' = Some 4%Z /\
  _check_table_compatibility self' (Some 4%Z, Some "l2"%string) = Return self'.
Proof.
  intros self self'.
  destruct (check_success_agrees self self' (Some 4%Z, Some "l2"%string) eq_refl)
    as (_ & _ & _ & _ & Hstored & Hagain).
  split; [|exact Hagain].
  apply (proj1 (Hstored eq_refl)). reflexivity.
Defined.

(** X11: when the check fails.  Unless the table is to be dropped, the
    check succeeds exactly when no known stored dimension differs from a
    requested one, no known stored distance tag differs from a requested
    strategy, and a stored tag met without a requested strategy is
    ["l2"]; in this last case the failure is the [ValueError] of the
    enumeration, not a mismatch error. *)
Theorem check_fails_only_on_clash (self : client) (cd : option Z * option string) :
  _drop_existing_table self = false ->
  (returns (_check_table_compatibility self cd)
   <-> (forall d n, fst cd = Some d -> _vector_dimension self = Some n -> d = n) /\
       (forall t s, snd cd = Some t -> _distance_strategy self = Some s ->
                    t = strategy_value s) /\
       (forall t, snd cd = Some t -> _distance_strategy self = None -> t = "l2"%string)) /\
  (forall t,
      (forall d n, fst cd = Some d -> _vector_dimension self = Some n -> d = n) ->
      snd cd = Some t -> _distance_strategy self = None -> t <> "l2"%string ->
      _check_table_compatibility self cd
      = Raise (ValueError ("'" ++ t ++ "' is not a valid DistanceStrategy"))).
Proof.
  destruct self as [name strategy dim drop], cd as [actual_dim actual_tag].
  cbn [_drop_existing_table fst snd _vector_dimension _distance_strategy].
  intros ->. unfold _check_table_compatibility, returns.
  cbn [_drop_existing_table fst snd].
  split.
  - destruct actual_dim as [d|], dim as [n|];
      cbn [_vector_dimension _distance_strategy set_vector_dimension bind];
      try (destruct (Z.eqb_spec d n) as [->|Hdn]; cbn [negb bind]);
      destruct actual_tag as [t|], strategy as [s|];
      cbn [_vector_dimension _distance_strategy set_vector_dimension
           set_distance_strategy bind];
      try (destruct (String.eqb_spec t (strategy_value s)) as [->|Hts]; cbn [negb]);
      try (unfold DistanceStrategy_of;
           destruct (String.eqb_spec t "l2") as [->|Ht]; cbn [bind]);
      (split;
       [ intros [c Hc]; try discriminate;
         repeat split; intros; congruence
       | intros (H1 & H2 & H3); try (eexists; reflexivity); exfalso;
         first [ apply Hdn; now apply H1
               | apply Hts; now apply H2
               | apply Ht; now apply H3 ] ]).
  - intros t Hdim -> -> Ht.
    assert (E : (t =? "l2")%string = false) by now apply String.eqb_neq.
    destruct actual_dim as [d|], dim as [n|];
      cbn [_vector_dimension _distance_strategy set_vector_dimension bind];
      try (rewrite (Hdim d n eq_refl eq_refl), Z.eqb_refl; cbn [negb bind]);
      unfold DistanceStrategy_of; rewrite E; reflexivity.
Qed.

Lemma check_fails_only_on_clash_witness :
  _check_table_compatibility
    {| _table_name := "docs"; _distance_strategy := None;
       _vector_dimension := None; _drop_existing_table := false |}
    (Some 4%Z, Some "cosine"%string)
  = Raise (ValueError "'cosine' is not a valid DistanceStrategy").
Proof.
  apply (proj2 (check_fails_only_on_clash
                  {| _table_name := "docs"; _distance_strategy := None;
                     _vector_dimension := None; _drop_existing_table := false |}
                  (Some 4%Z, Some "cosine"%string) eq_refl) "cosine"%string).
  - cbn. intros d n _ [=].
  - reflexivity.
  - reflexivity.
  - discriminate.
Defined.

(** ** Reading the stored column definition *)

Lemma prefix_app (p s : string) : prefix p (p ++ s) = true.
Proof.
  induction p as [|c p IH]; cbn [append prefix]; [now destruct s|].
  destruct (ascii_dec c c) as [_|H]; [exact IH | now elim H].
Qed.

Lemma prefix_head_mismatch (c d : ascii) (p s : string) :
  c <> d -> prefix (String c p) (String d s) = false.
Proof.
  intros H. cbn [prefix]. destruct (ascii_dec c d); [contradiction|reflexivity].
Qed.

Lemma search_vector_no_v (s : string) :
  forallb (fun c => negb (Ascii.eqb (ascii_lower c) "v")) (list_ascii_of_string s) = true ->
  search_vector s = None.
Proof.
  induction s as [|c s IH]; [reflexivity|].
  cbn [list_ascii_of_string forallb]. intros H.
  apply andb_true_iff in H as [Hc Hs]. apply negb_true_iff, Ascii.eqb_neq in Hc.
  cbn [search_vector lower].
  rewrite prefix_head_mismatch by congruence. now apply IH.
Qed.

(** X12: a column type spelt [vecf64(...)], the spelling the client's own
    error messages use, yields no dimension: the pattern looks for the
    word VECTOR.  On opening, such a column with no comment passes the
    check for any requested dimension, the stored one going unread. *)
Theorem vecf64_dimension_unread (rest : string) :
  forallb (fun c => negb (Ascii.eqb (ascii_lower c) "v")) (list_ascii_of_string rest) = true ->
  (forall comment,
      fst (extract_info_from_column_definition ("VECF64" ++ rest) comment) = None /\
      fst (extract_info_from_column_definition ("vecf64" ++ rest) comment) = None) /\
  (forall self,
      check_on_open self (Some (("VECF64" ++ rest)%string, EmptyString)) = Return self /\
      check_on_open self (Some (("vecf64" ++ rest)%string, EmptyString)) = Return self).
Proof.
  intros Hrest.
  assert (Hv : forall head, head = "VECF64"%string \/ head = "vecf64"%string ->
                            search_vector (head ++ rest) = None).
  { intros head [-> | ->]; cbn [append search_vector lower];
      (rewrite (search_vector_no_v rest Hrest);
       repeat first [ rewrite prefix_head_mismatch by discriminate
                    | match goal with
                      | |- context [prefix "vector" ?s] =>
                          replace (prefix "vector" s) with false
                            by (cbn; repeat (destruct (ascii_dec _ _);
                                             try discriminate; try reflexivity))
                      end ]; reflexivity). }
  split.
  - intros comment. unfold extract_info_from_column_definition. cbn [fst].
    rewrite !Hv by auto. split; reflexivity.
  - intros self. unfold check_on_open, get_embedding_column_definition,
      extract_info_from_column_definition.
    rewrite !Hv by auto. cbn [search_distance].
    unfold _check_table_compatibility. cbn [fst snd bind].
    destruct (_drop_existing_table self); split; reflexivity.
Qed.

Lemma vecf64_dimension_unread_witness :
  check_on_open (dim3_client false) (Some ("vecf64(4)"%string, EmptyString))
  = Return (dim3_client false).
Proof.
  apply (proj2 (vecf64_dimension_unread "(4)" eq_refl) (dim3_client false)).
Defined.

Lemma append_empty_r (s : string) : (s ++ EmptyString)%string = s.
Proof. induction s as [|c s IH]; cbn [append]; [reflexivity | now rewrite IH]. Qed.

Lemma span_all (p : ascii -> bool) (s : string) (c : ascii) (rest : string) :
  forallb p (list_ascii_of_string s) = true -> p c = false ->
  span p (s ++ String c rest) = (s, String c rest).
Proof.
  intros Hs Hc. induction s as [|a s IH]; cbn [append span].
  - now rewrite Hc.
  - cbn [list_ascii_of_string forallb] in Hs. apply andb_true_iff in Hs as [Ha Hs].
    rewrite Ha, (IH Hs). reflexivity.
Qed.

Lemma span_whole (p : ascii -> bool) (s : string) :
  forallb p (list_ascii_of_string s) = true -> span p s = (s, EmptyString).
Proof.
  induction s as [|a s IH]; cbn [span list_ascii_of_string forallb]; [reflexivity|].
  intros Hs. apply andb_true_iff in Hs as [Ha Hs]. rewrite Ha, (IH Hs). reflexivity.
Qed.

Lemma digits_of_uint (d : Decimal.uint) :
  forallb is_digit (list_ascii_of_string (NilEmpty.string_of_uint d)) = true.
Proof.
  induction d; cbn [NilEmpty.string_of_uint list_ascii_of_string forallb];
    try reflexivity; rewrite IHd; reflexivity.
Qed.

Lemma str_of_Z_nonneg (n : Z) :
  (0 <= n)%Z ->
  exists d, str_of_Z n = NilEmpty.string_of_uint d /\ d <> Decimal.Nil /\ Z.of_uint d = n.
Proof.
  intros Hn. unfold str_of_Z. destruct n as [|p|p]; [| |lia].
  - exists (Decimal.D0 Decimal.Nil). repeat split. discriminate.
  - exists (Pos.to_uint p). cbn [Z.to_int NilZero.string_of_int].
    assert (Hnn : Pos.to_uint p <> Decimal.Nil) by apply DecimalPos.Unsigned.to_uint_nonnil.
    split; [|split; [exact Hnn|]].
    + unfold NilZero.string_of_uint. destruct (Pos.to_uint p); [now elim Hnn | reflexivity..].
    + exact (DecimalZ.of_to (Z.pos p)).
Qed.

Lemma string_of_uint_nonempty (d : Decimal.uint) :
  d <> Decimal.Nil -> NilEmpty.string_of_uint d <> EmptyString.
Proof. destruct d; [congruence | discriminate..]. Qed.

Lemma dimension_group_number (n : Z) (rest : string) :
  (0 <= n)%Z ->
  exists digits,
    dimension_group ("(" ++ str_of_Z n ++ String ")" rest) = Some digits /\
    int_of_digits digits = n.
Proof.
  intros Hn. destruct (str_of_Z_nonneg n Hn) as (d & -> & Hd & Hval).
  exists (NilEmpty.string_of_uint d). split.
  - cbn [append dimension_group].
    rewrite (span_all is_digit _ ")" rest (digits_of_uint d) eq_refl). cbn [fst snd].
    pose proof (string_of_uint_nonempty d Hd) as Hne.
    destruct (NilEmpty.string_of_uint d); [now elim Hne | reflexivity].
  - unfold int_of_digits. now rewrite NilEmpty.usu.
Qed.

Lemma search_distance_found (tag : string) (rest : string) :
  tag <> EmptyString ->
  forallb tag_char (list_ascii_of_string tag) = true ->
  rest = EmptyString \/ (exists c rest', rest = String c rest' /\ tag_char c = false) ->
  search_distance ("distance=" ++ tag ++ rest) = Some tag.
Proof.
  intros Hne Htag Hrest.
  assert (Hspan : fst (span tag_char (tag ++ rest)) = tag).
  { destruct Hrest as [-> | (c & rest' & -> & Hc)].
    - rewrite append_empty_r. now rewrite (span_whole _ _ Htag).
    - now rewrite (span_all _ _ _ _ Htag Hc). }
  change ("distance=" ++ tag ++ rest)%string
    with (String "d" ("istance=" ++ tag ++ rest)).
  cbn [search_distance].
  change (String "d" ("istance=" ++ tag ++ rest))
    with ("distance=" ++ (tag ++ rest))%string.
  rewrite prefix_app. cbn [append skip]. rewrite Hspan.
  destruct tag; [now elim Hne | reflexivity].
Qed.

Lemma lower_app (a b : string) : lower (a ++ b) = (lower a ++ lower b)%string.
Proof. induction a as [|c a IH]; cbn [append lower]; [reflexivity | now rewrite IH]. Qed.

Lemma search_vector_word (word rest : string) :
  lower word = "vector"%string ->
  search_vector (word ++ rest) = Some (dimension_group rest).
Proof.
  intros Hw.
  assert (Hlen : exists a b c d e f, word = String a (String b (String c (String d
                   (String e (String f EmptyString)))))).
  { destruct word as [|a [|b [|c [|d [|e [|f [|g w]]]]]]]; try discriminate.
    now exists a, b, c, d, e, f. }
  destruct Hlen as (a & b & c & d & e & f & ->).
  cbn [append search_vector].
  change (String a (String b (String c (String d (String e (String f rest))))))
    with (String a (String b (String c (String d (String e (String f EmptyString))))) ++ rest)%string.
  rewrite lower_app, Hw, prefix_app. reflexivity.
Qed.

(** X13: a definition written the way the pattern expects is read back.
    For a dimension [n >= 0] and a non-empty distance tag free of commas
    and closing parentheses, the column type [VECTOR(n)] (in any letter
    case) with the comment [hnsw(distance=tag)] yields [(n, tag)]; and on
    opening, a client asking for another dimension is refused with both
    definitions. *)
Theorem column_definition_round_trip (word : string) (n : Z) (tag : string) :
  lower word = "vector"%string ->
  (0 <= n)%Z ->
  tag <> EmptyString ->
  forallb tag_char (list_ascii_of_string tag) = true ->
  extract_info_from_column_definition
    (word ++ "(" ++ str_of_Z n ++ ")") ("hnsw(distance=" ++ tag ++ ")")
  = (Some n, Some tag) /\
  (forall self requested,
      _drop_existing_table self = false ->
      _vector_dimension self = Some requested -> requested <> n ->
      check_on_open self
        (Some ((word ++ "(" ++ str_of_Z n ++ ")")%string,
               ("hnsw(distance=" ++ tag ++ ")")%string))
      = Raise (EmbeddingColumnMismatchError
                 ("vecf64(" ++ str_of_Z n ++ ")")
                 ("vecf64(" ++ str_of_Z requested ++ ")"))).
Proof.
  intros Hw Hn Hne Htag.
  assert (E : extract_info_from_column_definition
                (word ++ "(" ++ str_of_Z n ++ ")") ("hnsw(distance=" ++ tag ++ ")")
              = (Some n, Some tag)).
  { unfold extract_info_from_column_definition.
    rewrite (search_vector_word word _ Hw).
    destruct (dimension_group_number n EmptyString Hn) as (digits & -> & ->).
    f_equal.
    cbn [append search_distance].
    rewrite !prefix_head_mismatch by discriminate.
    apply (search_distance_found tag ")" Hne Htag).
    right. exists ")"%char, EmptyString. split; reflexivity. }
  split; [exact E|].
  intros self requested Hdrop Hreq Hdiff.
  unfold check_on_open, get_embedding_column_definition. rewrite E.
  unfold _check_table_compatibility. rewrite Hdrop. cbn [fst snd]. rewrite Hreq.
  destruct (Z.eqb_spec n requested) as [->|_]; [now elim Hdiff|].
  reflexivity.
Qed.

Lemma column_definition_round_trip_witness :
  extract_info_from_column_definition
    ("Vector" ++ "(" ++ str_of_Z 1536 ++ ")") ("hnsw(distance=" ++ "l2" ++ ")")
  = (Some 1536%Z, Some "l2"%string).
Proof.
  apply (proj1 (column_definition_round_trip "Vector" 1536 "l2"
                  eq_refl ltac:(lia) ltac:(discriminate) eq_refl)).
Defined.

(** ** More on rank fusion *)

Lemma tagged_nonempty (l : list string) (tag : string) :
  l <> [] -> exists r t rest, tagged l tag = (r, t, tag) :: rest.
Proof.
  destruct l as [|t l]; [congruence|]. intros _.
  unfold tagged. cbn [enumerate map fst snd]. eauto.
Qed.

Lemma weighted_loop_drop_weights (w0 w1 : R) (more : list R)
      (l : list (Z * string * string)) (d : dict) :
  weighted_loop (w0 :: w1 :: more) l d = weighted_loop [w0; w1] l d.
Proof.
  revert d. induction l as [|[[score text] model_type] l IH]; intros d; [reflexivity|].
  cbn [weighted_loop].
  destruct (String.eqb model_type "vector"); cbn [getitem nth_error bind]; apply IH.
Qed.

(** X14: [weighted_rank] needs one weight per list that is not empty.
    Without weights it raises [IndexError] as soon as either list holds
    an item, with a single weight as soon as the second list does; an
    option of type WeightedRank without the key [weighted_score] fails
    the same way.  Weights beyond the first two are ignored. *)
Theorem weighted_rank_needs_weights (v f : list string) (k : Z) :
  (v ++ f <> [] -> weighted_rank v f k [] = Raise IndexError) /\
  (forall w0, f <> [] -> weighted_rank v f k [w0] = Raise IndexError) /\
  (forall w0, returns (weighted_rank v [] k [w0])) /\
  (v ++ f <> [] ->
   rerank_data v f k {| rerank_type := Some "WeightedRank"%string; rank_value := None;
                        weighted_score := None; rerank_score_threshold := None |}
   = Raise IndexError) /\
  (forall w0 w1 more,
      weighted_rank v f k (w0 :: w1 :: more) = weighted_rank v f k [w0; w1]).
Proof.
  assert (Hempty : v ++ f <> [] -> weighted_rank v f k [] = Raise IndexError).
  { intros Hne. unfold weighted_rank.
    destruct v as [|x v].
    - cbn [app] in Hne. destruct (tagged_nonempty f "full_text" Hne) as (r & t & rest & ->).
      reflexivity.
    - destruct (tagged_nonempty (x :: v) "vector" ltac:(discriminate)) as (r & t & rest & ->).
      reflexivity. }
  split; [exact Hempty|]. split; [|split; [|split]].
  - intros w0 Hne. unfold weighted_rank, tagged. rewrite weighted_loop_app.
    rewrite (weighted_loop_tagged [w0] "vector" w0) by reflexivity. cbn [bind].
    destruct f as [|x f]; [congruence|]. reflexivity.
  - intros w0. unfold weighted_rank, tagged. rewrite weighted_loop_app.
    rewrite (weighted_loop_tagged [w0] "vector" w0) by reflexivity.
    cbn [bind enumerate map weighted_loop]. apply returns_Return.
  - intros Hne. unfold rerank_data. cbn. fold (weighted_rank v f k []).
    now rewrite (Hempty Hne).
  - intros w0 w1 more. unfold weighted_rank. now rewrite weighted_loop_drop_weights.
Qed.

Lemma weighted_rank_needs_weights_witness :
  weighted_rank vector_docs full_text_docs 4 [0.6] = Raise IndexError.
Proof.
  apply (proj1 (proj2 (weighted_rank_needs_weights vector_docs full_text_docs 4)) 0.6).
  discriminate.
Defined.

Lemma In_enumerate_rank {A : Type} (l : list A) (start r : Z) (a : A) :
  In (r, a) (enumerate l start) -> (start <= r)%Z.
Proof.
  revert start. induction l as [|x l IH]; intros start; cbn [enumerate In]; [intros []|].
  intros [[= <- _]|H]; [lia|]. apply IH in H. lia.
Qed.

Lemma items_of_enumerate {A : Type} (l : list A) (start : Z) :
  map snd (enumerate l start) = l.
Proof.
  revert start. induction l as [|x l IH]; intros start; cbn [enumerate map snd];
    [reflexivity | now rewrite IH].
Qed.

Lemma accumulate_all_fresh (contribution : Z -> R) (l : list string) (start : Z) (d : dict) :
  NoDup l -> (forall x, In x l -> ~ In x (map fst d)) ->
  accumulate_all contribution (enumerate l start) d
  = d ++ map (fun rt => (snd rt, contribution (fst rt))) (enumerate l start).
Proof.
  revert start d. induction l as [|y l IH]; intros start d Hnd Hfresh;
    cbn [enumerate accumulate_all map fst snd]; [now rewrite app_nil_r|].
  inversion Hnd as [|? ? Hy Hnd']; subst.
  assert (Hc : contains d y = false).
  { rewrite contains_keys. destruct (str_in y (map fst d)) eqn:E; [|reflexivity].
    apply str_in_In in E. elim (Hfresh y (or_introl eq_refl) E). }
  unfold accumulate. rewrite Hc. rewrite IH; [now rewrite <- app_assoc | exact Hnd' |].
  intros x Hx. rewrite map_app, in_app_iff. cbn [map fst In].
  intros [H|[<-|[]]]; [exact (Hfresh x (or_intror Hx) H) | exact (Hy Hx)].
Qed.

Lemma sorted_desc_fixed (l : list (string * R)) :
  StronglySorted descending l -> sorted_desc l = l.
Proof.
  induction 1 as [|x l Hl IH Hx]; cbn [sorted_desc]; [reflexivity|].
  rewrite IH. destruct l as [|y l]; [reflexivity|].
  cbn [insert_desc]. inversion Hx as [|? ? Hy _]; subst. unfold descending in Hy.
  destruct (Rlt_dec (snd x) (snd y)); [lra|reflexivity].
Qed.

Lemma enumerate_descending (contribution : Z -> R) (l : list string) (start : Z) :
  (forall r r', (start <= r <= r')%Z -> contribution r' <= contribution r) ->
  StronglySorted descending
    (map (fun rt => (snd rt, contribution (fst rt))) (enumerate l start)).
Proof.
  revert start. induction l as [|y l IH]; intros start Hanti;
    cbn [enumerate map fst snd]; constructor.
  - apply IH. intros r r' Hr. apply Hanti. lia.
  - apply Forall_forall. intros [t s] Hts.
    apply in_map_iff in Hts as [[r t'] [[= <- <-] Hin]].
    apply In_enumerate_rank in Hin. unfold descending. cbn [fst snd].
    apply Hanti. lia.
Qed.

Lemma single_list_table (contribution : Z -> R) (v : list string) (k : Z) :
  NoDup v -> (0 <= k)%Z ->
  (forall r r', (1 <= r <= r')%Z -> contribution r' <= contribution r) ->
  map snd (top_k (sorted_desc (accumulate_all contribution (enumerate v 1) [])) k)
  = firstn (Z.to_nat k) v.
Proof.
  intros Hnd Hk Hanti.
  rewrite accumulate_all_fresh by (auto; intros x _ []). cbn [app].
  rewrite sorted_desc_fixed by now apply enumerate_descending.
  unfold top_k. rewrite slice_to_nonneg by exact Hk.
  rewrite map_map. cbn [snd fst]. rewrite <- firstn_map, map_map. cbn [fst].
  change (fun x : Z * string => snd x) with (@snd Z string).
  now rewrite items_of_enumerate.
Qed.

(** X15: fusing a ranked list with nothing gives the list back.  When the
    first list has no repeated item and the second is empty, the items
    come out in their original order, cut to the first [k]: under RRF for
    every rank constant [c >= 0], under weighted rank for every weight
    [w0 >= 0]. *)
Theorem single_list_passes_through (v : list string) (k : Z) :
  NoDup v -> (0 <= k)%Z ->
  (forall c, (0 <= c)%Z ->
     exists out, rrf_rerank v [] k c = Return out /\
                 map snd out = firstn (Z.to_nat k) v) /\
  (forall w0 w1, 0 <= w0 ->
     exists out, weighted_rank v [] k [w0; w1] = Return out /\
                 map snd out = firstn (Z.to_nat k) v).
Proof.
  intros Hnd Hk. split.
  - intros c Hc. eexists. split.
    + apply rrf_rerank_table. intros r Hr. lia.
    + cbn [enumerate accumulate_all]. apply single_list_table; try assumption.
      intros r r' Hr. unfold Rdiv. rewrite !Rmult_1_l.
      apply Rinv_le_contravar; [apply IZR_lt; lia | apply IZR_le; lia].
  - intros w0 w1 Hw. eexists. split.
    + apply weighted_rank_table.
    + cbn [enumerate accumulate_all]. apply single_list_table; try assumption.
      intros r r' Hr. apply Rmult_le_compat_r; [exact Hw|].
      destruct (Z.eq_dec r r') as [->|Hne]; [lra|].
      apply Rlt_le, arctan_normalize_increasing.
      apply Ropp_lt_contravar, IZR_lt. lia.
Qed.

Lemma single_list_passes_through_witness :
  exists out, rrf_rerank vector_docs [] 1 60 = Return out /\
              map snd out = firstn (Z.to_nat 1) vector_docs.
Proof.
  apply (proj1 (single_list_passes_through vector_docs 1
                  ltac:(repeat constructor; cbn; intuition discriminate) ltac:(lia))).
  lia.
Defined.


Lemma rrf_loop_keys (c : Z) (l : list string) (start : Z) (d d' : dict) :
  rrf_loop c (enumerate l start) d = Return d' ->
  map fst d' = first_seen_from (map fst d) l.
Proof.
  revert start d. induction l as [|y l IH]; intros start d;
    cbn [enumerate rrf_loop first_seen_from].
  - now intros [= <-].
  - destruct (c + start =? 0)%Z; [discriminate|].
    intros H. rewrite (IH _ _ H). now rewrite keys_accumulate.
Qed.

Lemma weighted_loop_keys (weights : list R) (tag : string) (l : list string)
      (start : Z) (d d' : dict) :
  weighted_loop weights
    (map (fun st => (fst st, snd st, tag)) (enumerate l start)) d = Return d' ->
  map fst d' = first_seen_from (map fst d) l.
Proof.
  revert start d. induction l as [|y l IH]; intros start d;
    cbn [enumerate map fst snd weighted_loop first_seen_from].
  - now intros [= <-].
  - destruct (if String.eqb tag "vector" then getitem weights 0 else getitem weights 1)
      as [w|e]; cbn [bind]; [|discriminate].
    intros H. rewrite (IH _ _ H). now rewrite keys_accumulate.
Qed.

Lemma top_k_of_table (d : dict) (k : Z) (v f : list string) :
  map fst d = first_seen (v ++ f) ->
  (forall x, In x (map snd (top_k (sorted_desc d) k)) -> In x (v ++ f)) /\
  ((Z.of_nat (List.length (first_seen (v ++ f))) <= k)%Z ->
   Permutation (map snd (top_k (sorted_desc d) k)) (first_seen (v ++ f))).
Proof.
  intros Hkeys.
  assert (Hperm : Permutation (map fst (sorted_desc d)) (first_seen (v ++ f))).
  { rewrite <- Hkeys. apply Permutation_map, sorted_desc_perm. }
  split.
  - intros x Hx. destruct (top_k_items (sorted_desc d) k) as [n Hn].
    rewrite Hn in Hx. apply In_firstn in Hx.
    eapply Permutation_in in Hx; [|exact Hperm].
    apply In_first_seen_from in Hx as [[]|Hx]. exact Hx.
  - intros Hk. unfold top_k. rewrite slice_to_nonneg by lia.
    rewrite firstn_all2.
    + rewrite map_map. cbn [snd]. exact Hperm.
    + apply Permutation_length in Hperm. rewrite length_map in Hperm. lia.
Qed.



(** X17: the fusion functions return items of the input lists and lose
    none when [k] allows.  Every item of a returned list stands in one of
    the two input lists; and when [k] is at least the number of distinct
    items, the returned items are the distinct items of both lists, each
    exactly once. *)
Theorem fusion_returns_the_inputs (v f : list string) (k : Z) (out : list (R * string)) :
  (exists c, rrf_rerank v f k c = Return out) \/
  (exists weights, weighted_rank v f k weights = Return out) ->
  (forall x, In x (map snd out) -> In x (v ++ f)) /\
  ((Z.of_nat (List.length (first_seen (v ++ f))) <= k)%Z ->
   Permutation (map snd out) (first_seen (v ++ f))).
Proof.
  intros [[c H]|[weights H]].
  - unfold rrf_rerank in H.
    destruct (rrf_loop c (enumerate v 1) []) as [d1|e] eqn:E1; cbn [bind] in H;
      [|discriminate].
    destruct (rrf_loop c (enumerate f 1) d1) as [d2|e] eqn:E2; cbn [bind] in H;
      [|discriminate].
    injection H as <-. apply top_k_of_table.
    rewrite (rrf_loop_keys _ _ _ _ _ E2), (rrf_loop_keys _ _ _ _ _ E1).
    unfold first_seen. now rewrite first_seen_from_app.
  - unfold weighted_rank, tagged in H. rewrite weighted_loop_app in H.
    destruct (weighted_loop weights _ []) as [d1|e] eqn:E1 in H; cbn [bind] in H;
      [|discriminate].
    destruct (weighted_loop weights _ d1) as [d2|e] eqn:E2 in H; cbn [bind] in H;
      [|discriminate].
    injection H as <-. apply top_k_of_table.
    rewrite (weighted_loop_keys _ _ _ _ _ _ E2), (weighted_loop_keys _ _ _ _ _ _ E1).
    unfold first_seen. now rewrite first_seen_from_app.
Qed.

Lemma fusion_returns_the_inputs_witness :
  Permutation ["doc1"; "doc3"; "doc2"; "doc4"]%string
              (first_seen (vector_docs ++ full_text_docs)).
Proof.
  apply (proj2 (fusion_returns_the_inputs vector_docs full_text_docs 4
                  [(1 / 61, "doc1"%string); (1 / 61, "doc3"%string);
                   (1 / 62, "doc2"%string); (1 / 62, "doc4"%string)]
                  (or_introl (ex_intro _ 60%Z rrf_rerank_docs)))).
  cbn. lia.
Defined.

(** ** Full-text search, batches and inserts *)

(** X21: a batch of queries shares one filter.  An empty batch returns
    the empty list even when the filter does not compile; a batch that is
    not empty raises what the filter raises; and when the filter
    compiles the batch returns one result per query vector, each the
    result of [query] on that vector. *)
Theorem batch_query_maps_query (jh : cmp -> string -> value -> value -> bool)
        (self : client) (table : list row)
        (k : nat) (flt : option mapping) (lb ub : option R) :
  batch_query jh self table [] k flt lb ub = Return [] /\
  (forall qs e, qs <> [] -> _build_filter_clause flt = Raise e ->
                batch_query jh self table qs k flt lb ub = Raise e) /\
  (forall qs, returns (_build_filter_clause flt) ->
     exists results,
       batch_query jh self table qs k flt lb ub = Return results /\
       Forall2 (fun q r => query jh self table q k flt lb ub = Return r) qs results).
Proof.
  split; [reflexivity|]. split.
  - intros [|q qs] e Hne He; [congruence|].
    cbn [batch_query]. unfold query, _vector_search. now rewrite He.
  - intros qs [c Hc]. induction qs as [|q qs [results [Hr HF]]].
    + exists []. split; [reflexivity | constructor].
    + cbn [batch_query]. rewrite Hr.
      assert (Hq : returns (query jh self table q k flt lb ub)).
      { unfold query, _vector_search. rewrite Hc. cbn [bind]. apply returns_Return. }
      destruct Hq as [r Hq]. rewrite Hq. cbn [bind].
      exists (r :: results). split; [reflexivity | now constructor].
Qed.

Lemma batch_query_maps_query_witness :
  exists results,
    batch_query reference_json_holds l2_client three_rows [[0]; [1]] 2 None None None
    = Return results /\
    Forall2 (fun q r => query reference_json_holds l2_client three_rows q 2 None None None
                        = Return r) [[0]; [1]] results.
Proof.
  apply (proj2 (proj2 (batch_query_maps_query reference_json_holds
                         l2_client three_rows 2 None None None)) [[0]; [1]]).
  eexists. reflexivity.
Defined.

Lemma embedded_docs_fields (ids texts : list string) (metadatas : list value)
      (embeddings : list (list R)) :
  let rows := embedded_docs ids texts metadatas embeddings in
  List.length rows
  = Nat.min (List.length ids)
            (Nat.min (List.length texts)
                     (Nat.min (List.length metadatas) (List.length embeddings))) /\
  map id rows = firstn (List.length rows) ids /\
  map document rows = firstn (List.length rows) texts /\
  map meta rows = firstn (List.length rows) metadatas /\
  map embedding rows = firstn (List.length rows) embeddings.
Proof.
  cbv zeta. revert texts metadatas embeddings.
  induction ids as [|i ids IH]; intros [|t texts] [|m metadatas] [|e embeddings];
    cbn [embedded_docs List.length Nat.min map firstn]; try (repeat split; reflexivity).
  destruct (IH texts metadatas embeddings) as (H1 & H2 & H3 & H4 & H5).
  cbn [id document meta embedding]. rewrite H1 at 1.
  repeat split; f_equal; assumption.
Qed.

(** X22: [insert] stores as many records as the shortest of its lists
    and returns every id.  The records pair ids, texts, metadata and
    embeddings by position, up to the shortest list; absent or empty
    metadata count as one empty mapping per text; and the ids returned
    are the ones given, or one generated id per text, also for texts
    that got no record. *)
Theorem insert_zips_its_lists (uuid4 : nat -> string)
        (commit : list row -> list row -> outcome (list row))
        (table : list row) (texts : list string) (embeddings : list (list R))
        (metadatas : option (list value)) (ids : option (list string))
        (ids' : list string) (table' : list row) :
  insert uuid4 commit table texts embeddings metadatas ids = Return (ids', table') ->
  exists rows,
    commit table rows = Return table' /\
    ids' = match ids with
           | Some given => given
           | None => map uuid4 (seq 0 (List.length texts))
           end /\
    (ids = None -> List.length ids' = List.length texts) /\
    map id rows = firstn (List.length rows) ids' /\
    map document rows = firstn (List.length rows) texts /\
    map embedding rows = firstn (List.length rows) embeddings /\
    (truthy_list metadatas = false ->
     List.length rows
     = Nat.min (List.length ids') (Nat.min (List.length texts) (List.length embeddings)) /\
     Forall (fun r => meta r = VDict []) rows) /\
    (forall given, metadatas = Some given -> given <> [] ->
     List.length rows
     = Nat.min (List.length ids')
               (Nat.min (List.length texts)
                        (Nat.min (List.length given) (List.length embeddings))) /\
     map meta rows = firstn (List.length rows) given).
Proof.
  unfold insert.
  set (the_ids := match ids with
                  | Some given => given
                  | None => map uuid4 (seq 0 (List.length texts))
                  end).
  set (the_metadatas := match metadatas with
                        | Some given =>
                            if truthy_list metadatas then given
                            else map (fun _ => VDict []) texts
                        | None => map (fun _ => VDict []) texts
                        end).
  destruct (commit table (embedded_docs the_ids texts the_metadatas embeddings))
    as [t|e] eqn:Hcommit; cbn [bind]; [|discriminate].
  intros [= <- <-].
  destruct (embedded_docs_fields the_ids texts the_metadatas embeddings)
    as (Hlen & Hid & Hdoc & Hmeta & Hemb).
  exists (embedded_docs the_ids texts the_metadatas embeddings).
  split; [exact Hcommit|]. split; [reflexivity|].
  split; [intros ->; unfold the_ids; now rewrite length_map, length_seq|].
  split; [exact Hid|]. split; [exact Hdoc|]. split; [exact Hemb|]. split.
  - intros Hfalsy.
    assert (E : the_metadatas = map (fun _ => VDict []) texts).
    { unfold the_metadatas. destruct metadatas as [given|]; [|reflexivity].
      now rewrite Hfalsy. }
    split.
    + rewrite Hlen, E, length_map. lia.
    + apply Forall_forall. intros r Hr.
      assert (Hin : In (meta r) (map meta (embedded_docs the_ids texts the_metadatas embeddings)))
        by now apply in_map.
      rewrite Hmeta, E in Hin. apply In_firstn in Hin.
      apply in_map_iff in Hin as [t' [Ht _]]. now symmetry.
  - intros given -> Hne.
    assert (E : the_metadatas = given).
    { unfold the_metadatas, truthy_list. destruct given; [congruence|reflexivity]. }
    rewrite E in *. split; [exact Hlen | exact Hmeta].
Qed.

Lemma insert_zips_its_lists_witness :
  exists rows,
    Return (three_rows ++ rows)
    = Return (three_rows
                ++ [{| id := "u1"; embedding := [5]; document := "t1"; meta := VDict [] |}]) /\
    List.length rows = 1%nat.
Proof.
  destruct (insert_zips_its_lists (fun _ => "fresh"%string)
              (fun table rows => Return (table ++ rows))
              three_rows ["t1"; "t2"]%string [[5]] None (Some ["u1"; "u2"]%string)
              ["u1"; "u2"]%string
              (three_rows ++ [{| id := "u1"; embedding := [5]; document := "t1";
                                 meta := VDict [] |}])
              eq_refl)
    as (rows & Hcommit & _ & _ & _ & _ & _ & Hfalsy & _).
  exists rows. split; [exact Hcommit|].
  destruct (Hfalsy eq_refl) as [Hlen _]. exact Hlen.
Defined.

(** ** Hybrid search *)

(** X23: a hybrid search with no rerank option fuses by RRF with rank
    constant 60: whenever the filter compiles and the full-text statement
    succeeds, the result is that of [rrf_rerank] with constant 60 on the
    documents of the vector hits and of the full-text rows.  It is a list
    of scored pairs: at most [k] of them, no document twice, each
    document that of a vector hit or of a full-text row. *)
Theorem mix_query_default (jh : cmp -> string -> value -> value -> bool)
        (fulltext_rows : list row -> string -> clause -> nat -> outcome (list hit))
        (self : client) (table : list row)
        (q : list R) (keywords : list string) (k : nat) (flt : option mapping)
        (lb ub : option R) (c : clause) (fs : list hit) :
  _build_filter_clause flt = Return c ->
  fulltext_rows table (keywords_string keywords) c k = Return fs ->
  exists vs,
    _vector_search jh self table q k flt lb ub = Return vs /\
    mix_query jh fulltext_rows self table q (Some keywords) None k flt lb ub
    = (pairs <- rrf_rerank (map hit_document vs) (map hit_document fs) (Z.of_nat k) 60 ;;
       Return (Scored pairs)) /\
    exists pairs,
      mix_query jh fulltext_rows self table q (Some keywords) None k flt lb ub
      = Return (Scored pairs) /\
      (List.length pairs <= k)%nat /\
      NoDup (map snd pairs) /\
      (forall x, In x (map snd pairs) ->
         In x (map hit_document vs) \/ In x (map hit_document fs)).
Proof.
  intros Hc Hfs. unfold mix_query.
  destruct (_vector_search jh self table q k flt lb ub) as [vs|e] eqn:Ev.
  2:{ unfold _vector_search in Ev. rewrite Hc in Ev. discriminate. }
  exists vs. split; [reflexivity|].
  unfold _fulltext_search. rewrite Hc. cbn [bind]. rewrite Hfs. cbn [bind].
  unfold rerank_data, default_rerank_option.
  cbn [rerank_type rank_value get String.eqb Ascii.eqb Bool.eqb andb].
  split; [reflexivity|].
  rewrite rrf_rerank_table by (intros r Hr; lia). cbn [bind].
  eexists. split; [reflexivity|].
  set (dv := map hit_document vs). set (df := map hit_document fs).
  set (d := accumulate_all _ (enumerate df 1) _).
  assert (Hkeys : map fst d = first_seen (dv ++ df)).
  { unfold d. rewrite !keys_accumulate_all. unfold first_seen.
    now rewrite first_seen_from_app. }
  split; [|split].
  - pose proof (top_k_length (sorted_desc d) (Z.of_nat k) ltac:(lia)). lia.
  - apply top_k_NoDup. rewrite Hkeys. apply NoDup_first_seen_from. constructor.
  - intros x Hx.
    apply (proj1 (top_k_of_table d (Z.of_nat k) dv df Hkeys)) in Hx.
    now apply in_app_or in Hx.
Qed.

Lemma mix_query_default_witness :
  exists vs,
    _vector_search reference_json_holds l2_client three_rows [0] 2 None None None
    = Return vs /\
    mix_query reference_json_holds full_text_sample l2_client three_rows [0]
              (Some ["mid"%string]) None 2 None None None
    = (pairs <- rrf_rerank (map hit_document vs) (map hit_document [mid_hit]) 2 60 ;;
       Return (Scored pairs)) /\
    exists pairs,
      mix_query reference_json_holds full_text_sample l2_client three_rows [0]
                (Some ["mid"%string]) None 2 None None None
      = Return (Scored pairs) /\
      (List.length pairs <= 2)%nat /\
      NoDup (map snd pairs) /\
      (forall x, In x (map snd pairs) ->
         In x (map hit_document vs) \/ In x (map hit_document [mid_hit])).
Proof.
  apply (mix_query_default reference_json_holds full_text_sample l2_client three_rows [0]
           ["mid"%string] 2 None None None CTrue [mid_hit]); reflexivity.
Defined.

(** ** How [execute] recognises a query *)
















(** ** What the combinators mean *)

(** X25: [$and] asks for all of its sub-filters and [$or] for at least
    one.  When the mapping elements of the array compile to plain
    conjunctions of comparisons, a row satisfies the [$and] filter
    exactly when it satisfies each of them, and the [$or] filter exactly
    when it satisfies one of them; but an [$or] whose array holds no
    mapping at all constrains nothing: every row satisfies it. *)
Theorem combinators_mean_all_and_any (jh : cmp -> string -> value -> value -> bool)
        (conds : list value) (xs : list clause) :
  Forall2 (fun c x => compile c = Return x) (List.filter is_mapping conds) xs ->
  forallb plain xs = true ->
  exists c_and c_or,
    _build_filter_clause (Some [("$and"%string, VList conds)]) = Return c_and /\
    _build_filter_clause (Some [("$or"%string, VList conds)]) = Return c_or /\
    forall r,
      holds jh c_and r = forallb (fun x => holds jh x r) xs /\
      (xs <> [] -> holds jh c_or r = existsb (fun x => holds jh x r) xs) /\
      (xs = [] -> holds jh c_or r = true).
Proof.
  intros Hxs _. exists (CAnd [CTrue; CAnd xs]), (CAnd [CTrue; COr xs]).
  assert (Hconds := conditions_all compile conds xs Hxs).
  split; [|split].
  - rewrite build_Some. unfold filter_clauses. cbn [loop]. unfold item. cbn.
    now rewrite Hconds.
  - rewrite build_Some. unfold filter_clauses. cbn [loop]. unfold item. cbn.
    now rewrite Hconds.
  - intros r. split; [|split].
    + cbn [holds forallb]. now rewrite andb_true_r.
    + intros Hne. destruct xs as [|x xs']; [congruence|].
      cbn [holds forallb]. now rewrite andb_true_r.
    + intros ->. reflexivity.
Qed.

Lemma combinators_mean_all_and_any_witness :
  exists c_and c_or,
    _build_filter_clause
      (Some [("$and"%string,
              VList [VDict [("a"%string, VInt 1)]; VInt 3;
                     VDict [("b"%string, VDict [("$gt"%string, VInt 2)])]])])
    = Return c_and /\
    _build_filter_clause
      (Some [("$or"%string,
              VList [VDict [("a"%string, VInt 1)]; VInt 3;
                     VDict [("b"%string, VDict [("$gt"%string, VInt 2)])]])])
    = Return c_or /\
    forall r,
      holds reference_json_holds c_and r
      = forallb (fun x => holds reference_json_holds x r)
                [CAnd [CTrue; CJson OpEq "$.a" (VInt 1)];
                 CAnd [CTrue; CJson OpGt "$.b" (VInt 2)]] /\
      ([CAnd [CTrue; CJson OpEq "$.a" (VInt 1)];
        CAnd [CTrue; CJson OpGt "$.b" (VInt 2)]] <> [] ->
       holds reference_json_holds c_or r
       = existsb (fun x => holds reference_json_holds x r)
                 [CAnd [CTrue; CJson OpEq "$.a" (VInt 1)];
                  CAnd [CTrue; CJson OpGt "$.b" (VInt 2)]]) /\
      ([CAnd [CTrue; CJson OpEq "$.a" (VInt 1)];
        CAnd [CTrue; CJson OpGt "$.b" (VInt 2)]] = [] ->
       holds reference_json_holds c_or r = true).
Proof.
  apply (combinators_mean_all_and_any reference_json_holds
           [VDict [("a"%string, VInt 1)]; VInt 3;
            VDict [("b"%string, VDict [("$gt"%string, VInt 2)])]]
           [CAnd [CTrue; CJson OpEq "$.a" (VInt 1)];
            CAnd [CTrue; CJson OpGt "$.b" (VInt 2)]]).
  - repeat constructor.
  - reflexivity.
Defined.

(** * Scores in double precision *)

Section Binary64.

Local Open Scope Z_scope.

(** ** Binary64 scores: order *)

Ltac float_cases :=
  repeat match goal with
         | x : F64.float |- _ => destruct x as [[]|[]| |[] ? ?]
         end.

Ltac compare_cases :=
  cbn [F64.key fst snd F64.is_nan] in *; try discriminate;
  repeat match goal with
         | |- context [Z.compare ?a ?b] => destruct (Z.compare_spec a b)
         | |- context [Pos.compare_cont Eq ?a ?b] =>
             change (Pos.compare_cont Eq a b) with (Pos.compare a b);
             destruct (Pos.compare_spec a b)
         end;
  cbn [CompOpp]; (split; [intros E; try discriminate E; lia | intros E; try reflexivity; lia]).

Lemma ltb_below (x y : F64.float) :
  F64.is_nan x = false -> F64.is_nan y = false ->
  (F64.ltb x y = true <-> F64.below (F64.key x) (F64.key y)).
Proof.
  intros Hx Hy. unfold F64.ltb, SFltb, SFcompare, F64.below.
  float_cases; compare_cases.
Qed.

Lemma leb_below (x y : F64.float) :
  F64.is_nan x = false -> F64.is_nan y = false ->
  (F64.leb x y = true <-> ~ F64.below (F64.key y) (F64.key x)).
Proof.
  intros Hx Hy. unfold F64.leb, SFleb, SFcompare, F64.below.
  float_cases; compare_cases.
Qed.

Lemma eqb_below (x y : F64.float) :
  F64.is_nan x = false -> F64.is_nan y = false ->
  (F64.eqb x y = true
   <-> ~ F64.below (F64.key x) (F64.key y) /\ ~ F64.below (F64.key y) (F64.key x)).
Proof.
  intros Hx Hy. unfold F64.eqb, SFeqb, SFcompare, F64.below.
  float_cases; compare_cases.
Qed.

Lemma eqb_not_nan (x y : F64.float) :
  F64.eqb x y = true -> F64.is_nan x = false /\ F64.is_nan y = false.
Proof. destruct x, y; try discriminate; now split. Qed.

Lemma ltb_leb (x y : F64.float) :
  F64.is_nan x = false -> F64.is_nan y = false ->
  F64.ltb x y = true -> F64.leb x y = true.
Proof.
  intros Hx Hy H. apply (ltb_below x y Hx Hy) in H. apply (leb_below x y Hx Hy).
  unfold F64.below in *. lia.
Qed.

Lemma not_ltb_leb (x y : F64.float) :
  F64.is_nan x = false -> F64.is_nan y = false ->
  F64.ltb x y = false -> F64.leb y x = true.
Proof.
  intros Hx Hy H. apply (leb_below y x Hy Hx). intros B.
  apply (ltb_below x y Hx Hy) in B. congruence.
Qed.

Lemma leb_trans (x y z : F64.float) :
  F64.is_nan x = false -> F64.is_nan y = false -> F64.is_nan z = false ->
  F64.leb x y = true -> F64.leb y z = true -> F64.leb x z = true.
Proof.
  intros Hx Hy Hz H1 H2.
  apply (leb_below x y Hx Hy) in H1. apply (leb_below y z Hy Hz) in H2.
  apply (leb_below x z Hx Hz). unfold F64.below in *. lia.
Qed.

Lemma ltb_not_tied (x y s : F64.float) :
  F64.ltb x y = true -> F64.eqb x s = true -> F64.eqb y s = true -> False.
Proof.
  intros H Hx Hy.
  destruct (eqb_not_nan x s Hx) as [Nx Ns], (eqb_not_nan y s Hy) as [Ny _].
  apply (ltb_below x y Nx Ny) in H.
  apply (eqb_below x s Nx Ns) in Hx. apply (eqb_below y s Ny Ns) in Hy.
  unfold F64.below in *. lia.
Qed.

(** ** Binary64 scores: no NaN among sums of one sign *)

Lemma signed_not_nan (s : bool) (x : F64.float) : F64.signed s x -> F64.is_nan x = false.
Proof. destruct x; cbn; intros H; [reflexivity..|contradiction|reflexivity]. Qed.

Lemma iter_pos_invariant {A : Type} (P : A -> Prop) (f : A -> A) :
  (forall a, P a -> P (f a)) -> forall n a, P a -> P (iter_pos f n a).
Proof.
  intros Hf. induction n as [n IH|n IH|]; intros a Ha; cbn [iter_pos]; auto.
Qed.

Lemma shr_1_nonneg (mrs : shr_record) : 0 <= shr_m mrs -> 0 <= shr_m (shr_1 mrs).
Proof.
  destruct mrs as [m r s]. cbn [shr_m]. intros H.
  destruct m as [|[p|p|]|p]; cbn [shr_1 shr_m]; lia.
Qed.

Lemma shr_fexp_nonneg (prec emax m e : Z) (l : location) :
  0 <= m -> 0 <= shr_m (fst (shr_fexp prec emax m e l)).
Proof.
  intros H. unfold shr_fexp, shr.
  assert (H0 : 0 <= shr_m (shr_record_of_loc m l)) by (now destruct l as [|[]]).
  destruct (fexp prec emax (Zdigits2 m + e) - e); cbn [fst]; try exact H0.
  now apply iter_pos_invariant; [apply shr_1_nonneg|].
Qed.

Lemma round_nearest_even_nonneg (m : Z) (l : location) :
  0 <= m -> 0 <= round_nearest_even m l.
Proof.
  intros H. unfold round_nearest_even.
  destruct l as [|[]]; try destruct (Z.even m); lia.
Qed.

Lemma binary_round_aux_signed (prec emax : Z) (s : bool) (m e : Z) (l : location) :
  0 <= m -> F64.signed s (binary_round_aux prec emax s m e l).
Proof.
  intros H. unfold binary_round_aux.
  pose proof (shr_fexp_nonneg prec emax m e l H) as H1.
  destruct (shr_fexp prec emax m e l) as [mrs' e']. cbn [fst] in H1.
  pose proof (shr_fexp_nonneg prec emax _ e' loc_Exact
                (round_nearest_even_nonneg _ (loc_of_shr_record mrs') H1)) as H2.
  destruct (shr_fexp prec emax _ e' loc_Exact) as [mrs'' e'']. cbn [fst] in H2.
  destruct (shr_m mrs'') as [|p|p]; [exact I| |lia].
  destruct (e'' <=? emax - prec); reflexivity.
Qed.

Lemma binary_round_signed (prec emax : Z) (s : bool) (m : positive) (e : Z) :
  F64.signed s (binary_round prec emax s m e).
Proof.
  unfold binary_round. destruct (shl_align _ _ _) as [mz ez].
  apply binary_round_aux_signed. lia.
Qed.

Lemma reciprocal_signed (c r : Z) :
  c + r <> 0 -> F64.signed (c + r <? 0) (F64.reciprocal c r).
Proof.
  intros H. unfold F64.reciprocal, F64.div, SFdiv, F64.exact.
  destruct (c + r) as [|p|p]; [contradiction| |];
    cbn [Z.ltb Z.compare xorb];
    (destruct (SFdiv_core_binary _ _ _ _ _ _) as [[mz ez] lz] eqn:E;
     apply binary_round_aux_signed;
     unfold SFdiv_core_binary in E;
     match type of E with
     | (let '(q, r) := Z.div_eucl ?a ?b in _) = _ =>
         pose proof (Z.div_pos a b) as Hq; unfold Z.div in Hq;
         destruct (Z.div_eucl a b) as [q r']; injection E as <- _ _; apply Hq; [|lia]
     end;
     match goal with
     | |- 0 <= match ?s with _ => _ end => destruct s; [lia | apply Z.shiftl_nonneg; lia | lia]
     end).
Qed.

Lemma add_signed (s : bool) (x y : F64.float) :
  F64.signed s x -> F64.signed s y -> F64.signed s (F64.add x y).
Proof.
  unfold F64.add, SFadd.
  destruct x as [sx|sx| |sx mx ex], y as [sy|sy| |sy my ey]; cbn [F64.signed];
    try contradiction; try (intros; subst; try destruct s; try destruct sx; try destruct sy; cbn; auto; fail).
  intros -> ->.
  destruct (shl_align mx ex (Z.min ex ey)) as [mx' ex'], (shl_align my ey (Z.min ex ey)) as [my' ey'].
  cbn [fst]. destruct s; cbn [cond_Zopp Z.opp Z.add binary_normalize];
    apply binary_round_signed.
Qed.

(** ** Binary64 scores: score tables *)

Lemma f64_contains_keys (d : F64.dict) (t : string) :
  F64.contains d t = str_in t (map fst d).
Proof.
  unfold str_in. induction d as [|[t' v] d IH]; [reflexivity|].
  cbn [F64.contains map fst existsb]. now rewrite IH, String.eqb_sym.
Qed.

Lemma f64_keys_iadd (d : F64.dict) (t : string) (s : F64.float) :
  map fst (F64.iadd d t s) = map fst d.
Proof.
  induction d as [|[t' v] d IH]; [reflexivity|].
  cbn [F64.iadd]. destruct (String.eqb t' t); cbn [map fst]; [reflexivity|now rewrite IH].
Qed.

Lemma f64_keys_accumulate (d : F64.dict) (t : string) (s : F64.float) :
  map fst (F64.accumulate d t s)
  = if str_in t (map fst d) then map fst d else map fst d ++ [t].
Proof.
  unfold F64.accumulate. rewrite f64_contains_keys.
  destruct (str_in t (map fst d)).
  - apply f64_keys_iadd.
  - now rewrite map_app.
Qed.

Lemma f64_contains_lookup (d : F64.dict) (t : string) :
  F64.contains d t = false -> F64.lookup d t = None.
Proof.
  induction d as [|[t' v] d IH]; [reflexivity|].
  cbn [F64.contains F64.lookup]. intros H. apply orb_false_iff in H as [-> H]. auto.
Qed.

Lemma f64_lookup_iadd (d : F64.dict) (t : string) (s : F64.float) (x : string) :
  F64.lookup (F64.iadd d t s) x
  = if String.eqb t x then option_map (fun a => F64.add a s) (F64.lookup d x)
    else F64.lookup d x.
Proof.
  induction d as [|[t' v] d IH]; [now destruct (String.eqb t x)|].
  cbn [F64.iadd]. destruct (String.eqb_spec t' t) as [->|Hne]; cbn [F64.lookup].
  - destruct (String.eqb t x); reflexivity.
  - destruct (String.eqb_spec t' x) as [->|Hx].
    + destruct (String.eqb_spec t x) as [->|_]; [contradiction|reflexivity].
    + exact IH.
Qed.

Lemma f64_lookup_append (d : F64.dict) (t : string) (s : F64.float) (x : string) :
  F64.lookup (d ++ [(t, s)]) x
  = match F64.lookup d x with
    | Some a => Some a
    | None => if String.eqb t x then Some s else None
    end.
Proof.
  induction d as [|[t' v] d IH]; cbn [app F64.lookup]; [reflexivity|].
  destruct (String.eqb t' x); [reflexivity | exact IH].
Qed.

Lemma f64_lookup_accumulate (d : F64.dict) (t : string) (s : F64.float) (x : string) :
  F64.lookup (F64.accumulate d t s) x
  = if String.eqb t x then
      Some (match F64.lookup d x with
            | Some a => F64.add a s
            | None => s
            end)
    else F64.lookup d x.
Proof.
  unfold F64.accumulate. destruct (F64.contains d t) eqn:Hc.
  - rewrite f64_lookup_iadd. destruct (String.eqb_spec t x) as [<-|_]; [|reflexivity].
    destruct (F64.lookup d t) eqn:El; [reflexivity|].
    exfalso. clear - Hc El.
    induction d as [|[t' v] d IH]; [discriminate|].
    cbn [F64.contains F64.lookup] in *.
    destruct (String.eqb t' t); [discriminate | auto].
  - rewrite f64_lookup_append. destruct (String.eqb_spec t x) as [<-|_].
    + now rewrite (f64_contains_lookup d t Hc).
    + now destruct (F64.lookup d x).
Qed.

Lemma f64_keys_accumulate_all (contribution : Z -> F64.float) (l : list string)
      (start : Z) (d : F64.dict) :
  map fst (F64.accumulate_all contribution (enumerate l start) d)
  = first_seen_from (map fst d) l.
Proof.
  revert start d. induction l as [|y l IH]; intros start d; [reflexivity|].
  cbn [enumerate F64.accumulate_all first_seen_from].
  now rewrite IH, f64_keys_accumulate.
Qed.

Lemma f64_lookup_accumulate_all (contribution : Z -> F64.float) (l : list string)
      (start : Z) (d : F64.dict) (x : string) :
  F64.lookup (F64.accumulate_all contribution (enumerate l start) d) x
  = F64.rank_sum contribution l start x (F64.lookup d x).
Proof.
  revert start d. induction l as [|y l IH]; intros start d;
    cbn [enumerate F64.accumulate_all F64.rank_sum]; [reflexivity|].
  now rewrite IH, f64_lookup_accumulate.
Qed.

Lemma f64_lookup_In (d : F64.dict) (x : string) (s : F64.float) :
  NoDup (map fst d) -> In (x, s) d -> F64.lookup d x = Some s.
Proof.
  induction d as [|[t v] d IH]; [intros _ []|].
  cbn [map fst F64.lookup In]. intros Hnd [E|Hin].
  - injection E as -> ->. now rewrite String.eqb_refl.
  - inversion Hnd as [|? ? Hnotin Hnd']; subst.
    destruct (String.eqb_spec t x) as [->|_].
    + exfalso. apply Hnotin. apply in_map_iff. now exists (x, s).
    + now apply IH.
Qed.

(** Every score of the table has the property [P] once every
    contribution has it and sums keep it. *)
Lemma f64_accumulate_Forall (P : F64.float -> Prop) (d : F64.dict) (t : string)
      (s : F64.float) :
  (forall a b, P a -> P b -> P (F64.add a b)) ->
  Forall (fun kv => P (snd kv)) d -> P s ->
  Forall (fun kv => P (snd kv)) (F64.accumulate d t s).
Proof.
  intros Hadd Hd Hs. unfold F64.accumulate. destruct (F64.contains d t).
  - induction Hd as [|[t' v] d Hv Hd IH]; cbn [F64.iadd]; [constructor|].
    destruct (String.eqb t' t); constructor; cbn [snd] in *; auto.
  - apply Forall_app. split; [exact Hd|]. now constructor.
Qed.

Lemma f64_accumulate_all_Forall (P : F64.float -> Prop) (contribution : Z -> F64.float)
      (l : list string) (start : Z) (d : F64.dict) :
  (forall a b, P a -> P b -> P (F64.add a b)) ->
  (forall r, start <= r < start + Z.of_nat (List.length l) -> P (contribution r)) ->
  Forall (fun kv => P (snd kv)) d ->
  Forall (fun kv => P (snd kv)) (F64.accumulate_all contribution (enumerate l start) d).
Proof.
  intros Hadd. revert start d. induction l as [|y l IH]; intros start d Hc Hd; [exact Hd|].
  cbn [enumerate F64.accumulate_all]. apply IH.
  - intros r Hr. apply Hc. cbn [List.length]. lia.
  - apply f64_accumulate_Forall; [exact Hadd | exact Hd |].
    apply Hc. cbn [List.length]. lia.
Qed.

(** ** Binary64 scores: the stable descending sort *)

Lemma f64_insert_desc_perm (x : string * F64.float) (l : list (string * F64.float)) :
  Permutation (F64.insert_desc x l) (x :: l).
Proof.
  induction l as [|y l IH]; cbn [F64.insert_desc]; [reflexivity|].
  destruct (F64.ltb (snd x) (snd y)); [|reflexivity].
  rewrite IH. apply perm_swap.
Qed.

Lemma f64_sorted_desc_perm (l : list (string * F64.float)) :
  Permutation (F64.sorted_desc l) l.
Proof.
  induction l as [|x l IH]; cbn [F64.sorted_desc]; [reflexivity|].
  rewrite f64_insert_desc_perm. now constructor.
Qed.


Lemma f64_insert_desc_sorted (x : string * F64.float) (l : list (string * F64.float)) :
  F64.no_nan x -> Forall F64.no_nan l ->
  StronglySorted F64.descending l -> StronglySorted F64.descending (F64.insert_desc x l).
Proof.
  intros Hx Hl Hs. induction Hs as [|y l Hs IH Hy]; cbn [F64.insert_desc].
  - repeat constructor.
  - inversion Hl as [|? ? Ny Nl]; subst.
    destruct (F64.ltb (snd x) (snd y)) eqn:Hlt.
    + constructor; [now apply IH|].
      rewrite f64_insert_desc_perm. constructor; [|exact Hy].
      now apply ltb_leb.
    + constructor; [now constructor|].
      assert (Hxy : F64.descending x y) by now apply not_ltb_leb.
      constructor; [exact Hxy|].
      rewrite Forall_forall in Hy, Nl |- *. intros z Hz.
      unfold F64.descending in *.
      apply leb_trans with (snd y); auto. now apply Nl.
Qed.

Lemma f64_sorted_desc_sorted (l : list (string * F64.float)) :
  Forall F64.no_nan l -> StronglySorted F64.descending (F64.sorted_desc l).
Proof.
  induction 1 as [|x l Hx Hl IH]; cbn [F64.sorted_desc]; [constructor|].
  apply f64_insert_desc_sorted; [exact Hx | | exact IH].
  now rewrite f64_sorted_desc_perm.
Qed.

(** Stability: entries with one and the same score keep their order. *)
Lemma f64_insert_desc_stable (s : F64.float) (x : string * F64.float)
      (l : list (string * F64.float)) :
  List.filter (fun p => F64.eqb (snd p) s) (F64.insert_desc x l)
  = List.filter (fun p => F64.eqb (snd p) s) (x :: l).
Proof.
  induction l as [|y l IH]; cbn [F64.insert_desc]; [reflexivity|].
  destruct (F64.ltb (snd x) (snd y)) eqn:Hlt; [|reflexivity].
  cbn [List.filter] in *. rewrite IH.
  destruct (F64.eqb (snd x) s) eqn:Ex, (F64.eqb (snd y) s) eqn:Ey; try reflexivity.
  destruct (ltb_not_tied _ _ _ Hlt Ex Ey).
Qed.

Lemma f64_sorted_desc_stable (s : F64.float) (l : list (string * F64.float)) :
  List.filter (fun p => F64.eqb (snd p) s) (F64.sorted_desc l)
  = List.filter (fun p => F64.eqb (snd p) s) l.
Proof.
  induction l as [|x l IH]; cbn [F64.sorted_desc]; [reflexivity|].
  rewrite f64_insert_desc_stable. cbn [List.filter]. now rewrite IH.
Qed.

Lemma f64_filter_keys (g : string * F64.float -> bool) (g' : string -> bool)
      (l : list (string * F64.float)) :
  (forall p, In p l -> g p = g' (fst p)) ->
  map fst (List.filter g l) = List.filter g' (map fst l).
Proof.
  induction l as [|y l IH]; intros H; [reflexivity|].
  cbn [List.filter map]. rewrite <- (H y (or_introl eq_refl)).
  destruct (g y); cbn [map]; rewrite IH; auto using in_cons.
Qed.

(** The sorted items of a score table with distinct keys and no NaN
    form the ranking the fusion functions promise. *)
Lemma f64_sorted_table_is_ranking (total : string -> option F64.float)
      (v f : list string) (d : F64.dict) :
  map fst d = first_seen (v ++ f) ->
  (forall t : string, F64.lookup d t = total t) ->
  Forall F64.no_nan d ->
  F64.fused_ranking total v f (F64.sorted_desc d).
Proof.
  intros Hkeys Hlook Hnan.
  assert (Hnd : NoDup (map fst d)).
  { rewrite Hkeys. apply NoDup_first_seen_from. constructor. }
  assert (Hperm : Permutation (map fst (F64.sorted_desc d)) (map fst d))
    by (apply Permutation_map, f64_sorted_desc_perm).
  assert (Hval : forall (t : string) s, In (t, s) d -> total t = Some s).
  { intros t s Hin. rewrite <- Hlook. now apply f64_lookup_In. }
  unfold F64.fused_ranking. repeat split.
  - now rewrite <- Hkeys.
  - eapply Permutation_NoDup; [symmetry; exact Hperm | exact Hnd].
  - intros t s Hin. apply Hval.
    eapply Permutation_in; [apply f64_sorted_desc_perm | exact Hin].
  - now apply f64_sorted_desc_sorted.
  - intros s. rewrite f64_sorted_desc_stable, <- Hkeys.
    apply f64_filter_keys. intros [t s'] Hin. cbn [fst snd].
    unfold F64.scores. now rewrite (Hval t s' Hin).
Qed.

(** ** Binary64 scores: reciprocal rank fusion *)

Lemma f64_rrf_loop_total (c : Z) (l : list string) (start : Z) (d : F64.dict) :
  (forall r, start <= r < start + Z.of_nat (List.length l) -> c + r <> 0) ->
  F64.rrf_loop c (enumerate l start) d
  = Return (F64.accumulate_all (F64.reciprocal c) (enumerate l start) d).
Proof.
  revert start d. induction l as [|y l IH]; intros start d H; [reflexivity|].
  cbn [enumerate F64.rrf_loop F64.accumulate_all]. unfold F64.true_divide.
  destruct (Z.eqb_spec (c + start) 0) as [E|_].
  - exfalso. apply (H start); [|exact E]. cbn [List.length]. lia.
  - cbn [bind]. apply IH. intros r Hr. apply H. cbn [List.length]. lia.
Qed.

Lemma f64_rrf_loop_zero (c : Z) (l : list string) (start : Z) (d : F64.dict) :
  start <= - c < start + Z.of_nat (List.length l) ->
  F64.rrf_loop c (enumerate l start) d = Raise ZeroDivisionError.
Proof.
  revert start d. induction l as [|y l IH]; intros start d H.
  - cbn [List.length] in H. lia.
  - cbn [enumerate F64.rrf_loop]. unfold F64.true_divide.
    destruct (Z.eqb_spec (c + start) 0) as [E|Hne]; [reflexivity|].
    cbn [bind]. apply IH. cbn [List.length] in H. lia.
Qed.


Lemma f64_rrf_rerank_table (v f : list string) (k c : Z) :
  (forall r, 1 <= r <= Z.of_nat (Nat.max (List.length v) (List.length f)) -> c + r <> 0) ->
  F64.rrf_rerank v f k c = Return (F64.top_k (F64.sorted_desc (F64.rrf_table c v f)) k).
Proof.
  intros H. unfold F64.rrf_rerank, F64.rrf_table.
  rewrite f64_rrf_loop_total by (intros r Hr; apply H; lia). cbn [bind].
  rewrite f64_rrf_loop_total by (intros r Hr; apply H; lia). reflexivity.
Qed.

Lemma f64_rrf_table_is_ranking (v f : list string) (c : Z) :
  (forall r, 1 <= r <= Z.of_nat (Nat.max (List.length v) (List.length f)) -> c + r <> 0) ->
  F64.fused_ranking (F64.rrf_total c v f) v f (F64.sorted_desc (F64.rrf_table c v f)).
Proof.
  intros H. unfold F64.rrf_table. apply f64_sorted_table_is_ranking.
  - rewrite !f64_keys_accumulate_all. unfold first_seen. now rewrite first_seen_from_app.
  - intros x. rewrite !f64_lookup_accumulate_all. reflexivity.
  - assert (Hs : forall r, 1 <= r <= Z.of_nat (Nat.max (List.length v) (List.length f)) ->
                           F64.signed (c + 1 <? 0) (F64.reciprocal c r)).
    { intros r Hr. pose proof (reciprocal_signed c r (H r Hr)) as S.
      replace (c + 1 <? 0) with (c + r <? 0); [exact S|].
      destruct (Z.ltb_spec (c + r) 0), (Z.ltb_spec (c + 1) 0); try reflexivity; exfalso.
      - apply (H (- c)); lia.
      - apply (H (- c)); lia. }
    apply Forall_impl with (P := fun kv => F64.signed (c + 1 <? 0) (snd kv));
      [intros kv S; exact (signed_not_nan _ _ S)|].
    apply f64_accumulate_all_Forall;
      [apply add_signed | intros r Hr; apply Hs; lia |].
    apply f64_accumulate_all_Forall;
      [apply add_signed | intros r Hr; apply Hs; lia | constructor].
Qed.

Lemma f64_top_k_nonneg (ranking : list (string * F64.float)) (k : Z) :
  0 <= k ->
  F64.top_k ranking k = map (fun x => (snd x, fst x)) (firstn (Z.to_nat k) ranking).
Proof. intros Hk. unfold F64.top_k. now rewrite slice_to_nonneg. Qed.

(** C2 as stated fails for a rank constant that cancels a rank: with
    [rank_value = -1] the first item divides by zero. *)
Lemma rrf_rerank_zero_division :
  F64.rrf_rerank ["doc1"%string] [] 1 (-1) = Raise ZeroDivisionError.
Proof. reflexivity. Qed.

(** C2 (amended): for [k >= 0] and a rank constant [c] with [c + r <> 0]
    at every rank [r] that occurs, [rrf_rerank] returns the first [k]
    entries, as (score, item) pairs, of a ranking that lists every item
    once, with score the double precision sum, in order of occurrence,
    of the correctly rounded quotients [1 / (c + r)] over its ranks in
    both lists, in descending order of score, items of equal score in
    first-seen order.  When [c + r = 0] at a rank that occurs, the call
    raises [ZeroDivisionError].  On the lists of the tests with [c = 60]
    and [k = 4] the result is the one the tests expect, [1/61] and
    [1/62] being the doubles Python computes for these quotients. *)
Theorem rrf_rerank_spec :
  (forall (v f : list string) (k c : Z),
      0 <= k ->
      (forall r, 1 <= r <= Z.of_nat (Nat.max (List.length v) (List.length f)) -> c + r <> 0) ->
      exists ranking,
        F64.fused_ranking (F64.rrf_total c v f) v f ranking /\
        F64.rrf_rerank v f k c
        = Return (map (fun x => (snd x, fst x)) (firstn (Z.to_nat k) ranking))) /\
  (forall (v f : list string) (k c : Z),
      1 <= - c <= Z.of_nat (Nat.max (List.length v) (List.length f)) ->
      F64.rrf_rerank v f k c = Raise ZeroDivisionError) /\
  F64.rrf_rerank vector_docs full_text_docs 4 60
  = Return [(F64.div (F64.exact 1) (F64.exact 61), "doc1"%string);
            (F64.div (F64.exact 1) (F64.exact 61), "doc3"%string);
            (F64.div (F64.exact 1) (F64.exact 62), "doc2"%string);
            (F64.div (F64.exact 1) (F64.exact 62), "doc4"%string)].
Proof.
  split; [|split].
  - intros v f k c Hk Hc.
    exists (F64.sorted_desc (F64.rrf_table c v f)).
    split; [now apply f64_rrf_table_is_ranking|].
    rewrite (f64_rrf_rerank_table v f k c Hc). now rewrite f64_top_k_nonneg.
  - intros v f k c Hc. unfold F64.rrf_rerank.
    destruct (Z_le_gt_dec (- c) (Z.of_nat (List.length v))) as [Hv|Hv].
    + rewrite f64_rrf_loop_zero by lia. reflexivity.
    + rewrite f64_rrf_loop_total by (intros r Hr; lia). cbn [bind].
      rewrite f64_rrf_loop_zero by lia. reflexivity.
  - vm_compute. reflexivity.
Qed.

Lemma rrf_rerank_spec_witness :
  exists ranking,
    F64.fused_ranking (F64.rrf_total 60 vector_docs full_text_docs)
                      vector_docs full_text_docs ranking /\
    F64.rrf_rerank vector_docs full_text_docs 2 60
    = Return (map (fun x => (snd x, fst x)) (firstn (Z.to_nat 2) ranking)).
Proof.
  apply (proj1 rrf_rerank_spec vector_docs full_text_docs 2%Z 60%Z).
  - lia.
  - intros r Hr. lia.
Defined.

(** ** Binary64 scores: weighted rank fusion *)

Lemma f64_weighted_loop_app (atan : F64.float -> F64.float) (weights : list F64.float)
      (a b : list (Z * string * string)) (d : F64.dict) :
  F64.weighted_loop atan weights (a ++ b) d
  = (d' <- F64.weighted_loop atan weights a d ;; F64.weighted_loop atan weights b d').
Proof.
  revert d. induction a as [|[[score text] model_type] a IH]; intros d; [reflexivity|].
  cbn [app F64.weighted_loop].
  destruct (if String.eqb model_type "vector" then getitem weights 0 else getitem weights 1)
    as [w|e]; cbn [bind]; [apply IH | reflexivity].
Qed.

Lemma f64_weighted_loop_tagged (atan : F64.float -> F64.float) (weights : list F64.float)
      (model_type : string) (w : F64.float) (l : list string) (start : Z) (d : F64.dict) :
  (if String.eqb model_type "vector" then getitem weights 0 else getitem weights 1)
  = Return w ->
  F64.weighted_loop atan weights
    (map (fun st => (fst st, snd st, model_type)) (enumerate l start)) d
  = Return (F64.accumulate_all (F64.weighted atan w) (enumerate l start) d).
Proof.
  intros Hw. revert start d. induction l as [|y l IH]; intros start d; [reflexivity|].
  cbn [enumerate map fst snd F64.weighted_loop F64.accumulate_all].
  rewrite Hw. cbn [bind]. apply IH.
Qed.

Lemma f64_weighted_rank_table (atan : F64.float -> F64.float) (v f : list string)
      (k : Z) (w0 w1 : F64.float) :
  F64.weighted_rank atan v f k [w0; w1]
  = Return (F64.top_k (F64.sorted_desc (F64.weighted_table atan w0 w1 v f)) k).
Proof.
  unfold F64.weighted_rank, tagged, F64.weighted_table. rewrite f64_weighted_loop_app.
  rewrite (f64_weighted_loop_tagged atan [w0; w1] "vector" w0) by reflexivity. cbn [bind].
  rewrite (f64_weighted_loop_tagged atan [w0; w1] "full_text" w1) by reflexivity.
  reflexivity.
Qed.

Lemma f64_weighted_table_is_ranking (atan : F64.float -> F64.float) (v f : list string)
      (w0 w1 : F64.float) :
  (forall x s, In x (v ++ f) ->
               F64.weighted_total atan w0 w1 v f x = Some s -> F64.is_nan s = false) ->
  F64.fused_ranking (F64.weighted_total atan w0 w1 v f) v f
    (F64.sorted_desc (F64.weighted_table atan w0 w1 v f)).
Proof.
  intros Hnan.
  assert (Hkeys : map fst (F64.weighted_table atan w0 w1 v f) = first_seen (v ++ f)).
  { unfold F64.weighted_table. rewrite !f64_keys_accumulate_all.
    unfold first_seen. now rewrite first_seen_from_app. }
  assert (Hlook : forall t, F64.lookup (F64.weighted_table atan w0 w1 v f) t
                            = F64.weighted_total atan w0 w1 v f t).
  { intros x. unfold F64.weighted_table. now rewrite !f64_lookup_accumulate_all. }
  apply f64_sorted_table_is_ranking; [exact Hkeys | exact Hlook |].
  apply Forall_forall. intros [t s] Hin. unfold F64.no_nan. cbn [snd].
  apply (Hnan t).
  - assert (Hk : In t (map fst (F64.weighted_table atan w0 w1 v f)))
      by (apply in_map_iff; now exists (t, s)).
    rewrite Hkeys in Hk. unfold first_seen in Hk.
    apply In_first_seen_from in Hk as [[]|Hk]. exact Hk.
  - rewrite <- Hlook. apply f64_lookup_In; [|exact Hin].
    rewrite Hkeys. apply NoDup_first_seen_from. constructor.
Qed.

(** The table of [weighted_rank] depends on the arctangent only
    through its values at the negated ranks. *)
Lemma f64_accumulate_all_ext (g h : Z -> F64.float) (l : list string) (start : Z)
      (d : F64.dict) :
  (forall r, start <= r < start + Z.of_nat (List.length l) -> g r = h r) ->
  F64.accumulate_all g (enumerate l start) d = F64.accumulate_all h (enumerate l start) d.
Proof.
  revert start d. induction l as [|y l IH]; intros start d H; [reflexivity|].
  cbn [enumerate F64.accumulate_all].
  rewrite (H start) by (cbn [List.length]; lia).
  apply IH. intros r Hr. apply H. cbn [List.length]. lia.
Qed.

Lemma f64_weighted_rank_ext (atan atan' : F64.float -> F64.float) (v f : list string)
      (k : Z) (w0 w1 : F64.float) :
  (forall r, 1 <= r <= Z.of_nat (Nat.max (List.length v) (List.length f)) ->
             atan (F64.of_int (- r)) = atan' (F64.of_int (- r))) ->
  F64.weighted_rank atan v f k [w0; w1] = F64.weighted_rank atan' v f k [w0; w1].
Proof.
  intros H. rewrite !f64_weighted_rank_table. unfold F64.weighted_table.
  assert (E : forall w r, 1 <= r <= Z.of_nat (Nat.max (List.length v) (List.length f)) ->
                          F64.weighted atan w r = F64.weighted atan' w r).
  { intros w r Hr. unfold F64.weighted, F64.arctan_normalize. now rewrite H. }
  rewrite (f64_accumulate_all_ext (F64.weighted atan w0) (F64.weighted atan' w0))
    by (intros r Hr; apply E; lia).
  rewrite (f64_accumulate_all_ext (F64.weighted atan w1) (F64.weighted atan' w1))
    by (intros r Hr; apply E; lia).
  reflexivity.
Qed.

Lemma ranks_1_2 (r : Z) : 1 <= r <= 2 -> r = 1 \/ r = 2.
Proof. lia. Qed.

(** C3 as stated fails where the arctangent is correctly rounded: with
    [atan(-2) = -0x1.1b6e192ebbe44p+0] the scores of doc2 and doc4 are
    the doubles 0.08855017059025995 and 0.05903344706017331, not the
    doubles 0.08855017059025992 and 0.059033447060173286 of the
    claim. *)
Lemma weighted_rank_last_digits :
  F64.weighted_rank F64.atan_nearest vector_docs full_text_docs 4
    [F64.decimal 6 1; F64.decimal 4 1]
  = Return [(F64.decimal 15 2, "doc1"%string); (F64.decimal 1 1, "doc3"%string);
            (F64.decimal 8855017059025995 17, "doc2"%string);
            (F64.decimal 5903344706017331 17, "doc4"%string)]
  /\ F64.eqb (F64.decimal 8855017059025995 17) (F64.decimal 8855017059025992 17) = false
  /\ F64.eqb (F64.decimal 5903344706017331 17) (F64.decimal 59033447060173286 18) = false.
Proof. repeat split; vm_compute; reflexivity. Qed.

(** C3 (amended): for [k >= 0], weights [[w0, w1]] and any arctangent,
    when no accumulated score is NaN, [weighted_rank] returns the first
    [k] entries, as (score, item) pairs, of a ranking that lists every
    item once, with score the double precision sum, in order of
    occurrence, of [normalize(-r) * w0] over its ranks in the first list
    and of [normalize(-r) * w1] over its ranks in the second, in
    descending order of score, items of equal score in first-seen
    order.  On the lists of the tests with weights [[0.6, 0.4]] and
    [k = 4], where [atan(-1)] is the double nearest [-pi/4], the result
    is doc1 with 0.15, doc3 with 0.1, then doc2 and doc4 with scores
    whose last digits follow [atan(-2)]: 0.08855017059025992 and
    0.059033447060173286 where the C library returns
    [-0x1.1b6e192ebbe45p+0], 0.08855017059025995 and 0.05903344706017331
    where it returns the correctly rounded [-0x1.1b6e192ebbe44p+0]. *)
Theorem weighted_rank_spec :
  (forall (atan : F64.float -> F64.float) (v f : list string) (k : Z) (w0 w1 : F64.float),
      0 <= k ->
      (forall x s, In x (v ++ f) ->
                   F64.weighted_total atan w0 w1 v f x = Some s -> F64.is_nan s = false) ->
      exists ranking,
        F64.fused_ranking (F64.weighted_total atan w0 w1 v f) v f ranking /\
        F64.weighted_rank atan v f k [w0; w1]
        = Return (map (fun x => (snd x, fst x)) (firstn (Z.to_nat k) ranking))) /\
  (forall atan : F64.float -> F64.float,
      atan (F64.of_int (-1)) = SFopp F64.quarter_pi ->
      (atan (F64.of_int (-2)) = SFopp F64.atan_2_next ->
       F64.weighted_rank atan vector_docs full_text_docs 4 [F64.decimal 6 1; F64.decimal 4 1]
       = Return [(F64.decimal 15 2, "doc1"%string); (F64.decimal 1 1, "doc3"%string);
                 (F64.decimal 8855017059025992 17, "doc2"%string);
                 (F64.decimal 59033447060173286 18, "doc4"%string)]) /\
      (atan (F64.of_int (-2)) = SFopp F64.atan_2 ->
       F64.weighted_rank atan vector_docs full_text_docs 4 [F64.decimal 6 1; F64.decimal 4 1]
       = Return [(F64.decimal 15 2, "doc1"%string); (F64.decimal 1 1, "doc3"%string);
                 (F64.decimal 8855017059025995 17, "doc2"%string);
                 (F64.decimal 5903344706017331 17, "doc4"%string)])).
Proof.
  split.
  - intros atan v f k w0 w1 Hk Hnan.
    exists (F64.sorted_desc (F64.weighted_table atan w0 w1 v f)).
    split; [now apply f64_weighted_table_is_ranking|].
    rewrite f64_weighted_rank_table. now rewrite f64_top_k_nonneg.
  - intros atan H1. split; intros H2.
    + rewrite (f64_weighted_rank_ext atan F64.atan_last_place).
      * vm_compute. reflexivity.
      * intros r Hr. destruct (ranks_1_2 r Hr) as [-> | ->]; cbn [Z.opp];
          [rewrite H1 | rewrite H2]; vm_compute; reflexivity.
    + rewrite (f64_weighted_rank_ext atan F64.atan_nearest).
      * vm_compute. reflexivity.
      * intros r Hr. destruct (ranks_1_2 r Hr) as [-> | ->]; cbn [Z.opp];
          [rewrite H1 | rewrite H2]; vm_compute; reflexivity.
Qed.

Lemma weighted_rank_spec_witness :
  (exists ranking,
      F64.fused_ranking
        (F64.weighted_total F64.atan_nearest (F64.decimal 6 1) (F64.decimal 4 1)
           vector_docs full_text_docs)
        vector_docs full_text_docs ranking /\
      F64.weighted_rank F64.atan_nearest vector_docs full_text_docs 2
        [F64.decimal 6 1; F64.decimal 4 1]
      = Return (map (fun x => (snd x, fst x)) (firstn (Z.to_nat 2) ranking))) /\
  F64.weighted_rank F64.atan_last_place vector_docs full_text_docs 4
    [F64.decimal 6 1; F64.decimal 4 1]
  = Return [(F64.decimal 15 2, "doc1"%string); (F64.decimal 1 1, "doc3"%string);
            (F64.decimal 8855017059025992 17, "doc2"%string);
            (F64.decimal 59033447060173286 18, "doc4"%string)].
Proof.
  split.
  - apply (proj1 weighted_rank_spec F64.atan_nearest vector_docs full_text_docs 2%Z
             (F64.decimal 6 1) (F64.decimal 4 1)).
    + lia.
    + intros x s [<-|[<-|[<-|[<-|[]]]]]; vm_compute; intros [= <-]; reflexivity.
  - apply (proj2 weighted_rank_spec F64.atan_last_place); reflexivity.
Defined.

(** ** Binary64 scores: normalisation *)




End Binary64.
